(** * cloudflare-ddns: the authenticated request dispatcher

    A shallow embedding of [src/services/cloudflare.ts]: the path-keyed
    response cache, the retry loop around [fetch], the dispatcher [request],
    the credential check [verifyToken], the start-up block that resolves
    [API_KEY], and the exported readers [getZones], [getRecords] and
    [getZonesAndRecords].

    The module is asynchronous TypeScript.  Every call is modelled as run to
    completion on a [World] that holds the module-level [cache], the wall
    clock and the number of [fetch] calls issued so far; the interleaving of
    several dispatches in flight at once is not modelled.  What is kept of
    the asynchrony is the part the code depends on: calling an [async]
    function never throws, it hands back a promise, and a rejection turns
    into a thrown error only where the promise is awaited. *)

From stdpp Require Import base strings gmap pretty.
From Stdlib Require Import ZArith Lia.

Local Open Scope Z_scope.

(** ** Values exchanged with the API *)

(** A parsed JSON document, as [response.json()] produces it. *)
#[local] Unset Elimination Schemes.
Inductive JSON : Type :=
  | JNull
  | JBool (b : bool)
  | JNum (n : Z)
  | JStr (s : string)
  | JArr (items : list JSON)
  | JObj (fields : list (string * JSON)).
#[local] Set Elimination Schemes.

(** A JavaScript value of type [any] coming out of a JSON document:
    [None] is [undefined]. *)
Abbreviation JsValue := (option JSON).

(** Reading an own property of a parsed object. *)
Fixpoint get_field (key : string) (fields : list (string * JSON)) : JsValue :=
  match fields with
  | [] => None
  | (k, v) :: rest => if String.eqb k key then Some v else get_field key rest
  end.

(** What the module uses of node-fetch's [Response]: the [ok] flag, the
    [status] code and the outcome of [json()] ([None]: the body is not JSON
    and the promise rejects), with the wall-clock time reading the body
    takes. *)
Record Response : Type := mkResponse {
  ok : bool;
  status : Z;
  json : option JSON;
  json_elapsed : Z
}.

(** The argument of one [fetch] call. *)
Record FetchInit : Type := mkFetchInit {
  url : string;
  method : string;
  headers : gmap string string;
  body : option JSON
}.

(** What one [fetch] call does: it rejects (network error, DNS failure,
    timeout) or resolves with a response, whatever its status.  [elapsed]
    is the change of [Date.now()] while the call was pending; the wall
    clock is not monotonic, so nothing is assumed of its sign. *)
Inductive FetchOutcome : Type :=
  | NetFailure (elapsed : Z)
  | NetResponse (elapsed : Z) (r : Response).

(** The surroundings of the module: the remote end, asked with the serial
    number of the [fetch] call and its argument, and the module constant
    [API_KEY] as the exported functions see it once start-up is over. *)
Record Env : Type := mkEnv {
  transport : nat -> FetchInit -> FetchOutcome;
  API_KEY : string
}.

(** ** The cache and the world *)

(** [{ result: any; time: Date }]; [time] is kept as [time.getTime()]. *)
Record Entry : Type := mkEntry {
  result : JsValue;
  time : Z
}.

Record World : Type := mkWorld {
  cache : gmap string Entry;   (* let cache: Map<string, ...> *)
  now : Z;                     (* Date.now(), in milliseconds *)
  fetches : nat                (* fetch calls issued so far *)
}.

(** The same world at a later (or any other) reading of the clock. *)
Definition at_time (t : Z) (w : World) : World :=
  {| cache := cache w; now := t; fetches := fetches w |}.

(** ** Errors, outcomes and promises *)

Inductive Error : Type :=
  | TransportExhausted                        (* request, line 70 *)
  | ApiError (endpoint : string) (code : Z)   (* request, line 71 *)
  | FetchError                                (* fetch rejected *)
  | InvalidJson                               (* response.json() rejected *)
  | TypeError.                                (* property read on null/undefined *)

(** The text of the two errors the dispatcher builds itself. *)
Definition message (e : Error) : string :=
  match e with
  | TransportExhausted => "Failed to send request to Cloudflare API."
  | ApiError endpoint code =>
      "Failed to send request to Cloudflare API on path " +:+ endpoint
        +:+ " with status " +:+ pretty code +:+ "."
  | FetchError => "fetch failed"
  | InvalidJson => "invalid json response body"
  | TypeError => "Cannot read properties of null"
  end.

Inductive Outcome (A : Type) : Type :=
  | Returned (a : A)
  | Thrown (e : Error).
Arguments Returned {A} a.
Arguments Thrown {A} e.

(** A settled promise. *)
Inductive Promise (A : Type) : Type :=
  | Fulfilled (a : A)
  | Rejected (e : Error).
Arguments Fulfilled {A} a.
Arguments Rejected {A} e.

(** Code inside a function body: it may throw. *)
Definition M (A : Type) : Type := World -> Outcome A * World.

(** A call of an [async] function: it always hands back a promise. *)
Definition Async (A : Type) : Type := World -> Promise A * World.

#[global] Instance M_ret : MRet M := fun A a w => (Returned a, w).

#[global] Instance M_bind : MBind M := fun A B k m w =>
  match m w with
  | (Returned a, w') => k a w'
  | (Thrown e, w') => (Thrown e, w')
  end.

Definition throw {A : Type} (e : Error) : M A := fun w => (Thrown e, w).

(** [try { m } catch (err) { handler err }] *)
Definition try_catch {A : Type} (m : M A) (handler : Error -> M A) : M A :=
  fun w =>
    match m w with
    | (Returned a, w') => (Returned a, w')
    | (Thrown e, w') => handler e w'
    end.

(** [async (...) => { body }]: a throw inside the body rejects the promise. *)
Definition async {A : Type} (body : M A) : Async A := fun w =>
  match body w with
  | (Returned a, w') => (Fulfilled a, w')
  | (Thrown e, w') => (Rejected e, w')
  end.

(** The call expression [f(...)] of an async function [f], not awaited: its
    value is the promise. *)
Definition call {A : Type} (f : Async A) : M (Promise A) := fun w =>
  let (p, w') := f w in (Returned p, w').

(** [await p] *)
Definition await {A : Type} (p : Promise A) : M A :=
  match p with
  | Fulfilled a => mret a
  | Rejected e => throw e
  end.

(** ** Primitive effects *)

(** [cache.has(endpoint)] *)
Definition cache_has (endpoint : string) : M bool := fun w =>
  (Returned (bool_decide (is_Some (cache w !! endpoint))), w).

(** [cache.get(endpoint)!]: the assertion is erased at run time, a property
    read on the [undefined] of a missing key throws. *)
Definition cache_get (endpoint : string) : M Entry := fun w =>
  match cache w !! endpoint with
  | Some e => (Returned e, w)
  | None => (Thrown TypeError, w)
  end.

(** [cache.set(endpoint, entry)] *)
Definition cache_set (endpoint : string) (e : Entry) : M unit := fun w =>
  (Returned tt,
   {| cache := <[endpoint := e]> (cache w); now := now w; fetches := fetches w |}).

(** [Date.now()] and [new Date()] *)
Definition date_now : M Z := fun w => (Returned (now w), w).

Definition tick (dt : Z) (w : World) : World :=
  {| cache := cache w; now := now w + dt; fetches := fetches w |}.

(** [await fetch(url, init)] *)
Definition fetch (env : Env) (init : FetchInit) : M Response := fun w =>
  let w' := {| cache := cache w; now := now w; fetches := S (fetches w) |} in
  match transport env (fetches w) init with
  | NetFailure dt => (Thrown FetchError, tick dt w')
  | NetResponse dt r => (Returned r, tick dt w')
  end.

(** [await response.json()] *)
Definition response_json (r : Response) : M JSON := fun w =>
  match json r with
  | Some j => (Returned j, tick (json_elapsed r) w)
  | None => (Thrown InvalidJson, tick (json_elapsed r) w)
  end.

(** [json.result]: an own property of an object, [undefined] on an array or
    a primitive, a [TypeError] on [null]. *)
Definition get_result (j : JSON) : M JsValue :=
  match j with
  | JNull => throw TypeError
  | JObj fields => mret (get_field "result" fields)
  | _ => mret None
  end.

(** ** [retriedRequest] *)

(** The argument of [fetch] built at lines 89-97.  Later keys of the object
    literal win, so the caller's headers override the two fixed ones. *)
Definition fetch_init (env : Env) (method endpoint : string)
    (headers : option (gmap string string)) (body : option JSON)
    (token : option string) : FetchInit :=
  {| url := "https://api.cloudflare.com/client/v4/" +:+ endpoint;
     method := method;
     headers := default ∅ headers ∪
                <["Authorization" := "Bearer " +:+ default (API_KEY env) token]>
                  (<["Content-Type" := "application/json"]> ∅);
     body := body |}.

(** [while (!response && tries < 10)], by the tries that remain:
    [remaining = 10 - tries].  A response ends the loop, every error caught
    costs one try. *)
Fixpoint retry_loop (env : Env) (init : FetchInit) (remaining : nat)
    : M (option Response) :=
  match remaining with
  | O => mret None
  | S remaining' =>
      try_catch (response ← fetch env init; mret (Some response))
                (fun _ => retry_loop env init remaining')
  end.

Definition retriedRequest (env : Env) (method endpoint : string)
    (headers : option (gmap string string)) (body : option JSON)
    (token : option string) : Async (option Response) :=
  async (retry_loop env (fetch_init env method endpoint headers body token) 10).

(** ** [request] *)

(** Lines 70-76: what is made of the value [retriedRequest] resolved with. *)
Definition request_unwrap (endpoint : string) (cacheTimeSeconds : Z)
    (response : option Response) : M JsValue :=
  match response with
  | None => throw TransportExhausted
  | Some response =>
      if negb (ok response) then throw (ApiError endpoint (status response))
      else
        json ← response_json response;
        res ← get_result json;
        _ ← (if 0 <? cacheTimeSeconds
             then t ← date_now; cache_set endpoint {| result := res; time := t |}
             else mret tt);
        mret res
  end.

(** Lines 68-76: the path taken when the cache does not answer. *)
Definition request_fetch (env : Env) (method endpoint : string)
    (headers : option (gmap string string)) (body : option JSON)
    (token : option string) (cacheTimeSeconds : Z) : M JsValue :=
  promise ← call (retriedRequest env method endpoint headers body token);
  response ← await promise;
  request_unwrap endpoint cacheTimeSeconds response.

Definition request (env : Env) (method endpoint : string)
    (headers : option (gmap string string)) (body : option JSON)
    (token : option string) (cacheTimeSeconds : option Z) : Async JsValue :=
  async (
    let cacheTimeSeconds := default (60 * 5) cacheTimeSeconds in
    cacheExists ← cache_has endpoint;
    cacheExpired ←
      (if cacheExists
       then e ← cache_get endpoint;
            t ← date_now;
            mret (time e <? t - 1000 * cacheTimeSeconds)
       else mret false);
    if cacheExists && negb cacheExpired
    then e ← cache_get endpoint; mret (result e)
    else request_fetch env method endpoint headers body token cacheTimeSeconds).

(** ** [verifyToken], [getZones], [getRecords] *)

(** Lines 15-22.  The call of [request] is a statement of its own inside the
    [try] block: its promise is dropped, not awaited.  The dispatch is then
    still in flight when [verifyToken] resolves; here its effects on the
    world are run at once, and the value [verifyToken] resolves with does
    not depend on them. *)
Definition verifyToken (env : Env) (token : string) : Async bool :=
  async (
    try_catch
      (_ ← call (request env "GET" "user/tokens/verify" None None
                   (Some token) (Some 0));
       mret true)
      (fun _ => mret false)).

(** Lines 29-31 and 38-40: here the promise is awaited. *)
Definition getZones (env : Env) : Async JsValue :=
  async (p ← call (request env "GET" "zones" None None None None); await p).

Definition getRecords (env : Env) (zoneId : string) : Async JsValue :=
  async (p ← call (request env "GET" ("zones/" +:+ zoneId +:+ "/dns_records")
                     None None None None);
         await p).

(** ** Start-up: the block that resolves [API_KEY] (lines 110-126) *)

Inductive Startup : Type :=
  | Exited (code : Z) (stderr : string)   (* console.error; process.exit *)
  | Failed (e : Error)                    (* the top-level await threw *)
  | Ready (key : string).                 (* API_KEY is initialised *)

(** [variable] is [process.env.CLOUDFLARE_API_KEY]; [undefined] and the empty
    string are both falsy. *)
Definition load_API_KEY (env : Env) (variable : option string)
    : World -> Startup * World := fun w =>
  match variable with
  | None | Some "" =>
      (Exited 1 "No Cloudflare API key found in environment variables.", w)
  | Some key =>
      match verifyToken env key w with
      | (Rejected e, w') => (Failed e, w')
      | (Fulfilled valid, w') =>
          if negb valid then (Exited 1 "Invalid Cloudflare API key.", w')
          else (Ready key, w')
      end
  end.

(** ** [getZonesAndRecords] (lines 47-57) *)

(** The conversion a template literal applies to the value it splices in:
    [undefined] and [null] by name, a string as it is, an array as its
    elements joined by commas ([null] elements as the empty string), an
    object as ["[object Object]"].  A number is printed in decimal, as
    JavaScript does for the integers below 10^21 that [JNum] stands for. *)
Fixpoint json_string (j : JSON) : string :=
  match j with
  | JNull => "null"
  | JBool b => if b then "true" else "false"
  | JNum n => pretty n
  | JStr s => s
  | JArr items =>
      (fix join (l : list JSON) : string :=
         match l with
         | [] => ""
         | x :: rest =>
             match x with JNull => "" | _ => json_string x end
             +:+ match rest with [] => "" | _ => "," +:+ join rest end
         end) items
  | JObj _ => "[object Object]"
  end.

Definition js_string (v : JsValue) : string :=
  match v with
  | None => "undefined"
  | Some j => json_string j
  end.

(** The characters of a string, each a string of its own. *)
Definition chars (s : string) : list JSON :=
  (fun c => JStr (String c "")) <$> String.list_ascii_of_string s.

(** [for (const zone of zones)]: an array yields its elements and a string
    its characters; nothing else that JSON can hold is iterable. *)
Definition iterate (zones : JsValue) : M (list JSON) :=
  match zones with
  | Some (JArr items) => mret items
  | Some (JStr s) => mret (chars s)
  | _ => throw TypeError
  end.

(** [zone.id], as [json.result] above. *)
Definition get_id (zone : JSON) : M JsValue :=
  match zone with
  | JNull => throw TypeError
  | JObj fields => mret (get_field "id" fields)
  | _ => mret None
  end.

(** [{ ...zone }]: the own properties of an object, the elements of an
    array and the characters of a string under their index, and nothing of
    a number or a Boolean.  The object built is kept as a finite map from
    property names to values. *)
Definition spread (zone : JSON) : gmap string JsValue :=
  match zone with
  | JObj fields => Some <$> list_to_map fields
  | JArr items => Some <$> list_to_map (imap (fun i v => (pretty i, v)) items)
  | JStr s => Some <$> list_to_map (imap (fun i c => (pretty i, c)) (chars s))
  | _ => ∅
  end.

(** The body of the loop of lines 51-54, over the zones still to visit;
    [data] is the array built so far. *)
Fixpoint collect_records (env : Env) (zones : list JSON)
    (data : list (gmap string JsValue)) : M (list (gmap string JsValue)) :=
  match zones with
  | [] => mret data
  | zone :: rest =>
      id ← get_id zone;
      promise ← call (getRecords env (js_string id));
      zoneRecords ← await promise;
      collect_records env rest
        (data ++ [<["records" := zoneRecords]> (spread zone)])
  end.

Definition getZonesAndRecords (env : Env)
    : Async (list (gmap string JsValue)) :=
  async (
    promise ← call (getZones env);
    zones ← await promise;
    items ← iterate zones;
    collect_records env items []).

(** * Vocabulary of the properties *)

(** The [i]-th [fetch] call counted from world [w] is rejected. *)
Definition fails_at (env : Env) (init : FetchInit) (w : World) (i : nat) : Prop :=
  exists dt, transport env (fetches w + i)%nat init = NetFailure dt.

(** The same call resolves with the response [r]. *)
Definition responds_at (env : Env) (init : FetchInit) (w : World) (i : nat)
    (r : Response) : Prop :=
  exists dt, transport env (fetches w + i)%nat init = NetResponse dt r.

(** The test of line 65 on an entry, at clock reading [t]. *)
Definition expired (e : Entry) (t ttl : Z) : Prop := time e < t - 1000 * ttl.

(** The cache does not answer: no entry, or one that line 65 calls expired. *)
Definition misses (endpoint : string) (ttl : Z) (w : World) : Prop :=
  match cache w !! endpoint with
  | None => True
  | Some e => expired e (now w) ttl
  end.

(** The world after a result [v] was unwrapped at world [w]: the body has
    been read, and with a positive ttl the entry is written with the time of
    that moment. *)
Definition stored (endpoint : string) (ttl : Z) (r : Response) (v : JsValue)
    (w : World) : World :=
  let w1 := tick (json_elapsed r) w in
  if 0 <? ttl
  then {| cache := <[endpoint := {| result := v; time := now w1 |}]> (cache w1);
          now := now w1; fetches := fetches w1 |}
  else w1.

(** ** Concrete surroundings *)

(** A process that has just started: nothing cached, the clock at zero. *)
Definition w0 : World := {| cache := ∅; now := 0; fetches := 0 |}.

(** A process whose cache holds, for ["zones"], an empty list stored at time
    zero, looked at when the clock reads [t]. *)
Definition zones_entry : Entry := {| result := Some (JArr []); time := 0 |}.

Definition w_cached (t : Z) : World :=
  {| cache := {[ "zones" := zones_entry ]}; now := t; fetches := 0 |}.

(** A network that is down: every [fetch] is rejected after 5 ms. *)
Definition env_down : Env :=
  {| transport := fun _ _ => NetFailure 5; API_KEY := "secret" |}.

(** An API that turns every request down with [403 Forbidden]. *)
Definition forbidden : Response :=
  {| ok := false; status := 403; json := Some (JObj [("success", JBool false)]);
     json_elapsed := 1 |}.

Definition env_forbidden : Env :=
  {| transport := fun _ _ => NetResponse 20 forbidden; API_KEY := "secret" |}.

(** An API that answers every request with one zone in the usual envelope. *)
Definition zones_result : JSON := JArr [JObj [("id", JStr "z1")]].

Definition zones_envelope : JSON :=
  JObj [("success", JBool true); ("errors", JArr []); ("messages", JArr []);
        ("result", zones_result)].

Definition zones_ok : Response :=
  {| ok := true; status := 200; json := Some zones_envelope; json_elapsed := 1 |}.

Definition env_zones : Env :=
  {| transport := fun _ _ => NetResponse 20 zones_ok; API_KEY := "secret" |}.

(** The same API behind a network that drops the first three calls. *)
Definition env_flaky : Env :=
  {| transport := fun n _ => if (n <? 3)%nat then NetFailure 5
                             else NetResponse 20 zones_ok;
     API_KEY := "secret" |}.

(** The same API answering within the millisecond. *)
Definition zones_instant : Response :=
  {| ok := true; status := 200; json := Some zones_envelope; json_elapsed := 0 |}.

Definition env_instant : Env :=
  {| transport := fun _ _ => NetResponse 0 zones_instant; API_KEY := "secret" |}.

(** ** The exported functions as a whole *)

(** The cache key of the records of a zone (line 39). *)
Definition records_path (zoneId : string) : string :=
  "zones/" +:+ zoneId +:+ "/dns_records".

(** The value of [zone.id] where reading it does not throw. *)
Definition zone_id (zone : JSON) : JsValue :=
  match zone with
  | JObj fields => get_field "id" fields
  | _ => None
  end.

(** The cache key under which the loop of lines 51-54 looks for the records
    of a zone. *)
Definition zone_path (zone : JSON) : string :=
  records_path (js_string (zone_id zone)).

(** The object the loop builds for a zone when the records come out of the
    cache [c]. *)
Definition served (c : gmap string Entry) (zone : JSON) : gmap string JsValue :=
  <["records" := from_option result None (c !! zone_path zone)]> (spread zone).

(** The loop of lines 51-54 as a chain of dispatches: from world [w] the
    records of each zone are had by a [getRecords] of its [id], made in the
    world the dispatch before it has left; the object of the zone is the
    zone spread out with [records] set to what that dispatch resolved
    with, and [w'] is the world the last dispatch leaves. *)
Fixpoint gathered (env : Env) (zones : list JSON)
    (objects : list (gmap string JsValue)) (w w' : World) : Prop :=
  match zones, objects with
  | [], [] => w' = w
  | zone :: zones, object :: objects =>
      zone <> JNull /\
      exists zoneRecords w1,
        getRecords env (js_string (zone_id zone)) w = (Fulfilled zoneRecords, w1) /\
        object = <["records" := zoneRecords]> (spread zone) /\
        gathered env zones objects w1 w'
  | _, _ => False
  end.

(** The argument of the [fetch] calls that [verifyToken] brings about for a
    token (line 17 with lines 89-97). *)
Definition verify_request (token : string) : FetchInit :=
  {| url := "https://api.cloudflare.com/client/v4/user/tokens/verify";
     method := "GET";
     headers := {[ "Authorization" := "Bearer " +:+ token;
                   "Content-Type" := "application/json" ]};
     body := None |}.

(** The wall clock never runs backwards while a [fetch] is pending or a body
    is read. *)
Definition clock_forward (env : Env) : Prop :=
  forall n init,
    match transport env n init with
    | NetFailure dt => 0 <= dt
    | NetResponse dt r => 0 <= dt /\ 0 <= json_elapsed r
    end.

(** The worlds a process comes to through the functions the module exports,
    from an empty cache, with time passing between the calls. *)
Inductive reachable (env : Env) : World -> Prop :=
  | reach_start (t : Z) :
      reachable env {| cache := ∅; now := t; fetches := 0 |}
  | reach_wait (w : World) (t : Z) :
      reachable env w -> reachable env (at_time t w)
  | reach_verifyToken (w : World) (token : string) :
      reachable env w -> reachable env (verifyToken env token w).2
  | reach_getZones (w : World) :
      reachable env w -> reachable env (getZones env w).2
  | reach_getRecords (w : World) (zoneId : string) :
      reachable env w -> reachable env (getRecords env zoneId w).2
  | reach_getZonesAndRecords (w : World) :
      reachable env w -> reachable env (getZonesAndRecords env w).2.

(** An account with two zones: the listing answers with both, every other
    path with one record. *)
Definition two_zones : JSON :=
  JArr [JObj [("id", JStr "z1"); ("name", JStr "a.example")];
        JObj [("id", JStr "z2"); ("name", JStr "b.example")]].

Definition one_record : JSON := JArr [JObj [("type", JStr "A")]].

Definition envelope_of (payload : JSON) : Response :=
  {| ok := true; status := 200;
     json := Some (JObj [("success", JBool true); ("result", payload)]);
     json_elapsed := 1 |}.

Definition env_account : Env :=
  {| transport := fun _ init =>
       if String.eqb (url init) "https://api.cloudflare.com/client/v4/zones"
       then NetResponse 20 (envelope_of two_zones)
       else NetResponse 20 (envelope_of one_record);
     API_KEY := "secret" |}.


(** An API that answers the bearer of the token ["good"] and nobody else:
    every other call is rejected. *)
Definition env_keyed : Env :=
  {| transport := fun _ init =>
       if decide (headers init !! "Authorization" = Some "Bearer good")
       then NetResponse 20 zones_ok
       else NetFailure 5;
     API_KEY := "secret" |}.

(** An API whose answers are [200] with a body that is not JSON, with the
    body [null], and with an envelope that has no [result]. *)
Definition env_answering (answer : option JSON) : Env :=
  {| transport := fun _ _ =>
       NetResponse 20 {| ok := true; status := 200; json := answer;
                         json_elapsed := 1 |};
     API_KEY := "secret" |}.

(** * Properties *)

(** ** Running the monad *)

Ltac run :=
  unfold mbind, M_bind, mret, M_ret, throw, try_catch, async, call, await.

(** The text of the error of line 71, for the endpoint ["zones"] and the
    status 403. *)
Example message_of_api_error :
  message (ApiError "zones" 403)
  = "Failed to send request to Cloudflare API on path zones with status 403.".
Proof. vm_compute. reflexivity. Qed.

(** ** The retry loop *)

Section RetryLoop.
Variable env : Env.
Variable init : FetchInit.

Lemma fetch_cache (w : World) : cache (fetch env init w).2 = cache w.
Proof. unfold fetch. by destruct (transport env (fetches w) init). Qed.

Lemma fetch_fetches (w : World) :
  fetches (fetch env init w).2 = S (fetches w).
Proof. unfold fetch. by destruct (transport env (fetches w) init). Qed.

Lemma fetch_failure (w : World) :
  fails_at env init w 0 -> (fetch env init w).1 = Thrown FetchError.
Proof.
  intros [dt H]. rewrite Nat.add_0_r in H. unfold fetch. by rewrite H.
Qed.

Lemma fetch_response (w : World) (r : Response) :
  responds_at env init w 0 r -> (fetch env init w).1 = Returned r.
Proof.
  intros [dt H]. rewrite Nat.add_0_r in H. unfold fetch. by rewrite H.
Qed.

(** One turn of the loop, by what [fetch] did. *)
Lemma retry_loop_S (n : nat) (w : World) :
  retry_loop env init (S n) w =
  match fetch env init w with
  | (Returned r, w') => (Returned (Some r), w')
  | (Thrown _, w') => retry_loop env init n w'
  end.
Proof. simpl. run. by destruct (fetch env init w) as [[r|e] w']. Qed.

(** The loop never throws, never touches the cache and calls [fetch] at
    most [n] times. *)
Lemma retry_loop_frame (n : nat) (w : World) :
  exists o w', retry_loop env init n w = (Returned o, w') /\
               cache w' = cache w /\
               (fetches w <= fetches w' <= fetches w + n)%nat.
Proof.
  revert w. induction n as [|n IH]; intros w.
  - exists None, w. split; [done|]. split; [done|lia].
  - rewrite retry_loop_S.
    pose proof (fetch_cache w) as Hc. pose proof (fetch_fetches w) as Hf.
    destruct (fetch env init w) as [[r|e] w1]; simpl in Hc, Hf.
    + exists (Some r), w1. split; [done|]. split; [done|lia].
    + destruct (IH w1) as (o & w' & -> & Hc' & Hf').
      exists o, w'. split; [done|]. split; [congruence|lia].
Qed.

(** With a try left, [fetch] is called at least once. *)
Lemma retry_loop_calls (n : nat) (w : World) :
  (0 < n)%nat -> (fetches w < fetches (retry_loop env init n w).2)%nat.
Proof.
  destruct n as [|n]; [lia|]. intros _. rewrite retry_loop_S.
  pose proof (fetch_fetches w) as Hf.
  destruct (fetch env init w) as [[r|e] w1]; simpl in *; [lia|].
  destruct (retry_loop_frame n w1) as (o & w' & -> & _ & Hf'). simpl. lia.
Qed.

(** Every call rejected: the budget is spent to the last try. *)
Lemma retry_loop_exhausted (n : nat) (w : World) :
  (forall i, (i < n)%nat -> fails_at env init w i) ->
  exists w', retry_loop env init n w = (Returned None, w') /\
             cache w' = cache w /\ fetches w' = (fetches w + n)%nat.
Proof.
  revert w. induction n as [|n IH]; intros w Hfail.
  - exists w. split; [done|]. split; [done|lia].
  - rewrite retry_loop_S.
    pose proof (fetch_cache w) as Hc. pose proof (fetch_fetches w) as Hf.
    pose proof (fetch_failure w (Hfail 0%nat ltac:(lia))) as H0.
    destruct (fetch env init w) as [[r|e] w1]; simpl in *; [done|].
    destruct (IH w1) as (w' & -> & Hc' & Hf').
    { intros i Hi. destruct (Hfail (S i) ltac:(lia)) as [dt Hdt].
      exists dt. rewrite Hf. by replace (S (fetches w) + i)%nat
                                   with (fetches w + S i)%nat by lia. }
    exists w'. split; [done|]. split; [congruence|lia].
Qed.

(** [k] calls rejected, then a response: the loop ends on it. *)
Lemma retry_loop_obtained (n k : nat) (r : Response) (w : World) :
  (k < n)%nat ->
  (forall i, (i < k)%nat -> fails_at env init w i) ->
  responds_at env init w k r ->
  exists w', retry_loop env init n w = (Returned (Some r), w') /\
             cache w' = cache w /\ fetches w' = (fetches w + k + 1)%nat.
Proof.
  revert k w. induction n as [|n IH]; intros k w Hk Hfail Hresp; [lia|].
  rewrite retry_loop_S.
  pose proof (fetch_cache w) as Hc. pose proof (fetch_fetches w) as Hf.
  destruct k as [|k].
  - pose proof (fetch_response w r Hresp) as H0.
    destruct (fetch env init w) as [[r'|e] w1]; simpl in *; [|done].
    injection H0 as ->. exists w1. split; [done|]. split; [done|lia].
  - pose proof (fetch_failure w (Hfail 0%nat ltac:(lia))) as H0.
    destruct (fetch env init w) as [[r'|e] w1]; simpl in *; [done|].
    destruct (IH k w1) as (w' & -> & Hc' & Hf').
    + lia.
    + intros i Hi. destruct (Hfail (S i) ltac:(lia)) as [dt Hdt].
      exists dt. rewrite Hf. by replace (S (fetches w) + i)%nat
                                   with (fetches w + S i)%nat by lia.
    + destruct Hresp as [dt Hdt]. exists dt. rewrite Hf.
      by replace (S (fetches w) + k)%nat with (fetches w + S k)%nat by lia.
    + exists w'. split; [done|]. split; [congruence|lia].
Qed.
End RetryLoop.

(** ** Unwrapping the response *)

Section Unwrap.
Variable endpoint : string.
Variable ttl : Z.

Lemma request_unwrap_none (w : World) :
  request_unwrap endpoint ttl None w = (Thrown TransportExhausted, w).
Proof. done. Qed.

Lemma request_unwrap_not_ok (r : Response) (w : World) :
  ok r = false ->
  request_unwrap endpoint ttl (Some r) w
  = (Thrown (ApiError endpoint (status r)), w).
Proof. intros H. unfold request_unwrap. by rewrite H. Qed.

Lemma request_unwrap_object (r : Response) (fields : list (string * JSON))
    (w : World) :
  ok r = true -> json r = Some (JObj fields) ->
  request_unwrap endpoint ttl (Some r) w
  = (Returned (get_field "result" fields),
     stored endpoint ttl r (get_field "result" fields) w).
Proof.
  intros Hok Hj. unfold request_unwrap, stored, response_json. run.
  rewrite Hok, Hj. simpl. by destruct (0 <? ttl).
Qed.

(** An error leaves the cache as it was, and so does every outcome when
    the ttl is not positive; the unwrapping itself calls [fetch] never. *)
Lemma request_unwrap_frame (o : option Response) (w : World) :
  fetches (request_unwrap endpoint ttl o w).2 = fetches w /\
  ((exists e, (request_unwrap endpoint ttl o w).1 = Thrown e) \/ ttl <= 0 ->
   cache (request_unwrap endpoint ttl o w).2 = cache w).
Proof.
  destruct o as [r|]; [|by split].
  unfold request_unwrap, response_json. run.
  destruct (ok r); simpl; [|by split].
  destruct (json r) as [j|]; [|by split].
  destruct (Z.ltb_spec 0 ttl) as [Hpos|Hneg];
    destruct j; simpl; split; try done;
    intros [[e He]|Hle]; solve [done | lia].
Qed.
(** A result unwrapped under a positive ttl is the entry of the endpoint
    afterwards, stamped with the time of the write. *)
Lemma request_unwrap_returned (o : option Response) (v : JsValue)
    (w w' : World) :
  request_unwrap endpoint ttl o w = (Returned v, w') ->
  0 < ttl ->
  cache w' !! endpoint = Some {| result := v; time := now w' |}.
Proof.
  intros Hrun Hpos. destruct o as [r|]; [|done].
  unfold request_unwrap, response_json in Hrun. run.
  destruct (ok r); simpl in Hrun; [|done].
  destruct (json r) as [j|]; [|done].
  destruct (Z.ltb_spec 0 ttl); [|lia].
  destruct j; simpl in Hrun; try done;
    injection Hrun as <- <-; simpl; by rewrite lookup_insert_eq.
Qed.
End Unwrap.

(** ** The dispatcher *)

Section Dispatch.
Variable env : Env.
Variables method endpoint : string.
Variable headers : option (gmap string string).
Variable body : option JSON.
Variable token : option string.

Let init := fetch_init env method endpoint headers body token.

(** The cache answers: an entry is there and the test of line 65 fails. *)
Lemma request_hit (ttl : option Z) (e : Entry) (w : World) :
  cache w !! endpoint = Some e ->
  ~ expired e (now w) (default 300 ttl) ->
  request env method endpoint headers body token ttl w
  = (Fulfilled (result e), w).
Proof.
  unfold expired. intros He Hfresh.
  unfold request, cache_has, cache_get, date_now. run.
  change (60 * 5) with 300.
  rewrite bool_decide_eq_true_2 by eauto. simpl. rewrite He.
  destruct (Z.ltb_spec (time e) (now w - 1000 * default 300 ttl)); [lia|].
  simpl. by rewrite He.
Qed.

(** The cache does not answer: the fetch path is taken. *)
Lemma request_miss (ttl : option Z) (w : World) :
  misses endpoint (default 300 ttl) w ->
  request env method endpoint headers body token ttl w
  = async (request_fetch env method endpoint headers body token
             (default 300 ttl)) w.
Proof.
  unfold misses, expired, request, cache_has, cache_get, date_now. run.
  change (60 * 5) with 300.
  destruct (cache w !! endpoint) as [e|] eqn:He.
  - intros Hexp. rewrite bool_decide_eq_true_2 by eauto. simpl. rewrite He.
    destruct (Z.ltb_spec (time e) (now w - 1000 * default 300 ttl)); [done|lia].
  - intros _. rewrite bool_decide_eq_false_2; [done|]. by intros [? ?].
Qed.

(** Either the one or the other. *)
Lemma hit_or_miss (ttl : Z) (w : World) :
  (exists e, cache w !! endpoint = Some e /\ ~ expired e (now w) ttl)
  \/ misses endpoint ttl w.
Proof.
  unfold misses, expired. destruct (cache w !! endpoint) as [e|]; [|by right].
  destruct (Z.lt_ge_cases (time e) (now w - 1000 * ttl));
    [by right|left; exists e; split; [done|lia]].
Qed.

(** The fetch path is the retry loop followed by the unwrapping. *)
Lemma request_fetch_unfold (ttl : Z) (w : World) :
  exists o w1,
    retry_loop env init 10 w = (Returned o, w1) /\
    cache w1 = cache w /\
    (fetches w < fetches w1 <= fetches w + 10)%nat /\
    request_fetch env method endpoint headers body token ttl w
    = request_unwrap endpoint ttl o w1.
Proof.
  destruct (retry_loop_frame env init 10 w) as (o & w1 & Hloop & Hc & Hf).
  pose proof (retry_loop_calls env init 10 w ltac:(lia)) as Hcalls.
  exists o, w1. rewrite Hloop in Hcalls. simpl in Hcalls.
  split; [done|]. split; [done|]. split; [lia|].
  unfold request_fetch, retriedRequest. run. fold init. by rewrite Hloop.
Qed.

(** Whatever comes of it, the fetch path calls [fetch], at most ten times;
    when it throws, or when the ttl is not positive, the cache is as it
    was. *)
Lemma request_fetch_frame (ttl : Z) (w : World) :
  let run := request_fetch env method endpoint headers body token ttl w in
  (fetches w < fetches run.2 <= fetches w + 10)%nat /\
  ((exists e, run.1 = Thrown e) \/ ttl <= 0 -> cache run.2 = cache w).
Proof.
  destruct (request_fetch_unfold ttl w) as (o & w1 & _ & Hc & Hf & ->).
  destruct (request_unwrap_frame endpoint ttl o w1) as [Hf' Hc'].
  simpl. split; [lia|]. intros H. rewrite Hc'; done.
Qed.
(** Every attempt rejected on a miss: ten calls, then the error of line 70. *)
Lemma request_exhausted (ttl : option Z) (w : World) :
  misses endpoint (default 300 ttl) w ->
  (forall i, (i < 10)%nat -> fails_at env init w i) ->
  exists w', request env method endpoint headers body token ttl w
             = (Rejected TransportExhausted, w') /\
             cache w' = cache w /\ fetches w' = (fetches w + 10)%nat.
Proof.
  intros Hmiss Hfail. rewrite request_miss by done.
  destruct (retry_loop_exhausted env init 10 w Hfail) as (w' & Hloop & Hc & Hf).
  exists w'. split; [|done].
  unfold request_fetch, retriedRequest. run. fold init. by rewrite Hloop.
Qed.

(** A response after [k] rejected attempts on a miss: the dispatch goes on
    with it from the world [w1] in which it arrived; no call follows. *)
Lemma request_obtained (ttl : option Z) (k : nat) (r : Response) (w : World) :
  misses endpoint (default 300 ttl) w ->
  (k < 10)%nat ->
  (forall i, (i < k)%nat -> fails_at env init w i) ->
  responds_at env init w k r ->
  exists w1, cache w1 = cache w /\ fetches w1 = (fetches w + k + 1)%nat /\
             request env method endpoint headers body token ttl w
             = async (request_unwrap endpoint (default 300 ttl) (Some r)) w1.
Proof.
  intros Hmiss Hk Hfail Hresp. rewrite request_miss by done.
  destruct (retry_loop_obtained env init 10 k r w Hk Hfail Hresp)
    as (w1 & Hloop & Hc & Hf).
  exists w1. split; [done|]. split; [done|].
  unfold request_fetch, retriedRequest. run. fold init. by rewrite Hloop.
Qed.

(** On a miss the dispatch calls [fetch]. *)
Lemma request_miss_fetches (ttl : option Z) (w : World) :
  misses endpoint (default 300 ttl) w ->
  (fetches w <
   fetches (request env method endpoint headers body token ttl w).2)%nat.
Proof.
  intros Hmiss. rewrite request_miss by done.
  destruct (request_fetch_frame (default 300 ttl) w) as [Hf _].
  unfold async.
  destruct (request_fetch env method endpoint headers body token
              (default 300 ttl) w) as [[v|e] w']; simpl in *; lia.
Qed.

(** A rejected dispatch, and any dispatch whose ttl is not positive, leaves
    the cache as it was. *)
Lemma request_cache_frame (ttl : option Z) (w : World) :
  let run := request env method endpoint headers body token ttl w in
  (exists e, run.1 = Rejected e) \/ default 300 ttl <= 0 ->
  cache run.2 = cache w.
Proof.
  destruct (hit_or_miss (default 300 ttl) w) as [(e & He & Hfresh)|Hmiss].
  - by rewrite (request_hit ttl e w He Hfresh).
  - rewrite request_miss by done.
    destruct (request_fetch_frame (default 300 ttl) w) as [_ Hc].
    unfold async. simpl.
    destruct (request_fetch env method endpoint headers body token
                (default 300 ttl) w) as [[v|e] w'].
    + simpl in *. intros [[e He]|Hle]; [done|]. apply Hc. by right.
    + simpl in *. intros _. apply Hc. left. by exists e.
Qed.
(** A dispatch that resolved under a positive ttl leaves an entry for the
    endpoint that holds the value it resolved with. *)
Lemma fresh_entry_cached (ttl : option Z) (v : JsValue) (w w1 : World) :
  0 < default 300 ttl ->
  request env method endpoint headers body token ttl w = (Fulfilled v, w1) ->
  exists e1, cache w1 !! endpoint = Some e1 /\ result e1 = v.
Proof.
  intros Hpos Hrun.
  destruct (hit_or_miss (default 300 ttl) w) as [(e & He & Hfresh)|Hmiss].
  - rewrite (request_hit ttl e w He Hfresh) in Hrun.
    injection Hrun as <- <-. by exists e.
  - rewrite request_miss in Hrun by done.
    destruct (request_fetch_unfold (default 300 ttl) w)
      as (o & w' & _ & _ & _ & Heq).
    unfold async in Hrun. rewrite Heq in Hrun.
    destruct (request_unwrap endpoint (default 300 ttl) o w')
      as [[v'|e'] w''] eqn:Hun; [|done].
    injection Hrun as <- <-.
    exists {| result := v'; time := now w'' |}. split; [|done].
    by apply (request_unwrap_returned endpoint (default 300 ttl) o v' w' w'').
Qed.
End Dispatch.


(** * The dispatcher's contract *)

(** ** Retry budget *)

(** C2. If [fetch] is rejected on every attempt, [retriedRequest] makes
    exactly ten attempts and resolves with no response, and the dispatcher
    (the cache not answering) then rejects with [TransportExhausted]; if an
    attempt yields a response the loop ends on it, whatever its status: the
    response after [k] rejected attempts is returned after [k + 1] calls. *)
Theorem retry_budget_is_ten (env : Env) (method endpoint : string)
    (headers : option (gmap string string)) (body : option JSON)
    (token : option string) (ttl : option Z) (w : World) :
  let init := fetch_init env method endpoint headers body token in
  ((forall i, (i < 10)%nat -> fails_at env init w i) ->
   (exists w', retriedRequest env method endpoint headers body token w
               = (Fulfilled None, w') /\
               fetches w' = (fetches w + 10)%nat) /\
   (misses endpoint (default 300 ttl) w ->
    exists w', request env method endpoint headers body token ttl w
               = (Rejected TransportExhausted, w') /\
               fetches w' = (fetches w + 10)%nat)) /\
  (forall (k : nat) (r : Response),
     (k < 10)%nat ->
     (forall i, (i < k)%nat -> fails_at env init w i) ->
     responds_at env init w k r ->
     exists w', retriedRequest env method endpoint headers body token w
                = (Fulfilled (Some r), w') /\
                fetches w' = (fetches w + k + 1)%nat).
Proof.
  intros init. split.
  - intros Hfail. split.
    + destruct (retry_loop_exhausted env init 10 w Hfail) as (w' & Hloop & _ & Hf).
      exists w'. split; [|done].
      unfold retriedRequest, async. fold init. by rewrite Hloop.
    + intros Hmiss.
      destruct (request_exhausted env method endpoint headers body token
                  ttl w Hmiss Hfail) as (w' & Hrun & _ & Hf).
      by exists w'.
  - intros k r Hk Hfail Hresp.
    destruct (retry_loop_obtained env init 10 k r w Hk Hfail Hresp)
      as (w' & Hloop & _ & Hf).
    exists w'. split; [|done].
    unfold retriedRequest, async. fold init. by rewrite Hloop.
Qed.

Lemma retry_budget_is_ten_witness :
  (exists w', request env_down "GET" "zones" None None None None w0
              = (Rejected TransportExhausted, w') /\ fetches w' = 10%nat) /\
  (exists w', retriedRequest env_flaky "GET" "zones" None None None w0
              = (Fulfilled (Some zones_ok), w') /\ fetches w' = 4%nat).
Proof.
  destruct (retry_budget_is_ten env_down "GET" "zones" None None None None w0)
    as [Hdown _].
  destruct (retry_budget_is_ten env_flaky "GET" "zones" None None None None w0)
    as [_ Hflaky].
  split.
  - apply Hdown.
    + intros i _. exists 5. reflexivity.
    + exact I.
  - apply (Hflaky 3%nat zones_ok).
    + lia.
    + intros i Hi. exists 5. simpl.
      destruct (Nat.ltb_spec i 3) as [_|Hge]; [reflexivity|lia].
    + exists 20. reflexivity.
Defined.

(** ** Status-based failure *)

(** C6. When the response obtained has [ok] false, the dispatch rejects at
    once with the [ApiError] of its endpoint and status: the call that
    brought the response is the last one, and the cache is not touched. *)
Theorem status_failure_is_immediate (env : Env) (method endpoint : string)
    (headers : option (gmap string string)) (body : option JSON)
    (token : option string) (ttl : option Z) (w : World)
    (k : nat) (r : Response) :
  let init := fetch_init env method endpoint headers body token in
  misses endpoint (default 300 ttl) w ->
  (k < 10)%nat ->
  (forall i, (i < k)%nat -> fails_at env init w i) ->
  responds_at env init w k r ->
  ok r = false ->
  exists w', request env method endpoint headers body token ttl w
             = (Rejected (ApiError endpoint (status r)), w') /\
             fetches w' = (fetches w + k + 1)%nat /\
             cache w' = cache w.
Proof.
  intros init Hmiss Hk Hfail Hresp Hok.
  destruct (request_obtained env method endpoint headers body token
              ttl k r w Hmiss Hk Hfail Hresp) as (w1 & Hc & Hf & ->).
  exists w1. unfold async. by rewrite request_unwrap_not_ok.
Qed.

Lemma status_failure_is_immediate_witness :
  exists w', request env_forbidden "GET" "zones" None None None None w0
             = (Rejected (ApiError "zones" 403), w') /\
             fetches w' = 1%nat /\ cache w' = ∅.
Proof.
  apply (status_failure_is_immediate env_forbidden "GET" "zones" None None None
           None w0 0 forbidden).
  - exact I.
  - lia.
  - intros i Hi. lia.
  - exists 20. reflexivity.
  - reflexivity.
Defined.

(** ** Unwrapping and storing *)

(** C7. When the response obtained has [ok] true and its body parses to an
    envelope object, the dispatch resolves with the envelope's [result]
    field alone; with a positive ttl the cache of afterwards is the cache
    of before with the endpoint mapped to that result and to the clock
    reading of the write, and otherwise the cache of before.  An omitted
    ttl is 300 seconds. *)
Theorem success_unwraps_and_stores (env : Env) (method endpoint : string)
    (headers : option (gmap string string)) (body : option JSON)
    (token : option string) (ttl : option Z) (w : World)
    (k : nat) (r : Response) (fields : list (string * JSON)) :
  let init := fetch_init env method endpoint headers body token in
  let v := get_field "result" fields in
  misses endpoint (default 300 ttl) w ->
  (k < 10)%nat ->
  (forall i, (i < k)%nat -> fails_at env init w i) ->
  responds_at env init w k r ->
  ok r = true ->
  json r = Some (JObj fields) ->
  (exists w', request env method endpoint headers body token ttl w
              = (Fulfilled v, w') /\
              fetches w' = (fetches w + k + 1)%nat /\
              cache w' = if 0 <? default 300 ttl
                         then <[endpoint := {| result := v; time := now w' |}]>
                                (cache w)
                         else cache w) /\
  request env method endpoint headers body token None
  = request env method endpoint headers body token (Some 300).
Proof.
  intros init v Hmiss Hk Hfail Hresp Hok Hjson. split; [|done].
  destruct (request_obtained env method endpoint headers body token
              ttl k r w Hmiss Hk Hfail Hresp) as (w1 & Hc & Hf & ->).
  unfold async.
  rewrite (request_unwrap_object endpoint (default 300 ttl) r fields w1 Hok Hjson).
  eexists. split; [done|]. unfold stored.
  destruct (0 <? default 300 ttl); simpl; by rewrite ?Hc.
Qed.

Lemma success_unwraps_and_stores_witness :
  exists w', request env_flaky "GET" "zones" None None None None w0
             = (Fulfilled (Some zones_result), w') /\
             fetches w' = 4%nat /\
             cache w' = {[ "zones" := {| result := Some zones_result;
                                         time := now w' |} ]}.
Proof.
  destruct (success_unwraps_and_stores env_flaky "GET" "zones" None None None
              None w0 3 zones_ok
              [("success", JBool true); ("errors", JArr []);
               ("messages", JArr []); ("result", zones_result)])
    as [(w' & Hrun & Hf & Hc) _].
  - exact I.
  - lia.
  - intros i Hi. exists 5. simpl.
    destruct (Nat.ltb_spec i 3) as [_|Hge]; [reflexivity|lia].
  - exists 20. reflexivity.
  - reflexivity.
  - reflexivity.
  - exists w'. split; [exact Hrun|]. split; [exact Hf|]. exact Hc.
Defined.

(** ** Error paths and the cache *)

(** C9. A dispatch that rejects, with [TransportExhausted], with an
    [ApiError] or with any other error, leaves the cache exactly as it
    was. *)
Theorem failed_dispatch_keeps_cache (env : Env) (method endpoint : string)
    (headers : option (gmap string string)) (body : option JSON)
    (token : option string) (ttl : option Z) (w w' : World) (e : Error) :
  request env method endpoint headers body token ttl w = (Rejected e, w') ->
  cache w' = cache w.
Proof.
  intros Hrun.
  pose proof (request_cache_frame env method endpoint headers body token
                ttl w) as Hframe.
  simpl in Hframe. rewrite Hrun in Hframe. apply Hframe. left. by exists e.
Qed.

Lemma failed_dispatch_keeps_cache_witness :
  exists w', request env_forbidden "GET" "zones" None None None None
               (w_cached 400000)
             = (Rejected (ApiError "zones" 403), w') /\
             cache w' = {[ "zones" := zones_entry ]}.
Proof.
  exists (request env_forbidden "GET" "zones" None None None None
            (w_cached 400000)).2.
  split.
  - vm_compute. reflexivity.
  - apply (failed_dispatch_keeps_cache env_forbidden "GET" "zones" None None
             None None (w_cached 400000) _ (ApiError "zones" 403)).
    vm_compute. reflexivity.
Defined.

(** ** The cache short-circuit *)

(** C3. Where the cache holds an entry for the endpoint that line 65 does
    not call expired, the dispatch resolves with the stored result and the
    world is as before: no [fetch] is called, whatever the method.  Hence,
    after a dispatch with a positive ttl has resolved with [v], a second
    dispatch of the same method and path, made at any time [t2] at which
    the entry is not expired, resolves with [v] again and calls [fetch]
    never. *)
Theorem fresh_entry_answers (env : Env) (method endpoint : string)
    (headers : option (gmap string string)) (body : option JSON)
    (token : option string) (ttl : option Z) (w : World) :
  (forall e, cache w !! endpoint = Some e ->
             ~ expired e (now w) (default 300 ttl) ->
             request env method endpoint headers body token ttl w
             = (Fulfilled (result e), w)) /\
  (forall (v : JsValue) (w1 : World),
     0 < default 300 ttl ->
     request env method endpoint headers body token ttl w = (Fulfilled v, w1) ->
     exists e1, cache w1 !! endpoint = Some e1 /\
       forall t2, ~ expired e1 t2 (default 300 ttl) ->
         request env method endpoint headers body token ttl (at_time t2 w1)
         = (Fulfilled v, at_time t2 w1) /\
         fetches (at_time t2 w1) = fetches w1).
Proof.
  split.
  - intros e He Hfresh. by apply request_hit.
  - intros v w1 Hpos Hrun.
    destruct (fresh_entry_cached env method endpoint headers body token
                ttl v w w1 Hpos Hrun) as (e1 & He1 & Hv).
    exists e1. split; [done|]. intros t2 Hfresh. split; [|done].
    rewrite <- Hv. by apply request_hit.
Qed.

Lemma fresh_entry_answers_witness :
  request env_down "POST" "zones" None None None None (w_cached 100000)
  = (Fulfilled (Some (JArr [])), w_cached 100000) /\
  exists w1,
    request env_zones "GET" "zones" None None None None w0
    = (Fulfilled (Some zones_result), w1) /\
    request env_zones "GET" "zones" None None None None (at_time 100021 w1)
    = (Fulfilled (Some zones_result), at_time 100021 w1).
Proof.
  split.
  - destruct (fresh_entry_answers env_down "POST" "zones" None None None None
                (w_cached 100000)) as [Hhit _].
    apply (Hhit zones_entry).
    + reflexivity.
    + unfold expired. simpl. lia.
  - destruct (fresh_entry_answers env_zones "GET" "zones" None None None None
                w0) as [_ Hagain].
    exists (request env_zones "GET" "zones" None None None None w0).2.
    split; [vm_compute; reflexivity|].
    destruct (Hagain (Some zones_result)
                (request env_zones "GET" "zones" None None None None w0).2)
      as (e1 & He1 & Hsecond).
    + simpl. lia.
    + vm_compute. reflexivity.
    + apply Hsecond.
      assert (e1 = {| result := Some zones_result; time := 21 |}) as ->.
      { vm_compute in He1. by injection He1 as <-. }
      unfold expired. simpl. lia.
Defined.

(** ** The TTL boundary *)

(** C4. With an entry cached for the endpoint, the dispatch takes the fetch
    path exactly when [time e < now - ttl * 1000]: issued before
    [time e + ttl * 1000] it resolves with the cached result and the world
    is untouched, issued after it the cache is missed and [fetch] is
    called. *)
Theorem ttl_boundary (env : Env) (method endpoint : string)
    (headers : option (gmap string string)) (body : option JSON)
    (token : option string) (ttl : Z) (w : World) (e : Entry) :
  cache w !! endpoint = Some e ->
  let dispatch := request env method endpoint headers body token (Some ttl) w in
  let refetch := async (request_fetch env method endpoint headers body token
                          ttl) w in
  dispatch = (if time e <? now w - ttl * 1000 then refetch
              else (Fulfilled (result e), w)) /\
  (now w < time e + ttl * 1000 -> dispatch = (Fulfilled (result e), w)) /\
  (time e + ttl * 1000 < now w ->
   dispatch = refetch /\ (fetches w < fetches dispatch.2)%nat).
Proof.
  intros He dispatch refetch.
  assert (~ expired e (now w) ttl -> dispatch = (Fulfilled (result e), w))
    as Hhit.
  { intros Hfresh. by apply request_hit. }
  assert (expired e (now w) ttl ->
          dispatch = refetch /\ (fetches w < fetches dispatch.2)%nat) as Hmiss.
  { intros Hexp.
    assert (misses endpoint (default 300 (Some ttl)) w) as Hm.
    { unfold misses. by rewrite He. }
    split.
    - by apply request_miss.
    - by apply request_miss_fetches. }
  unfold expired in Hhit, Hmiss. split; [|split].
  - destruct (Z.ltb_spec (time e) (now w - ttl * 1000)).
    + apply Hmiss. lia.
    + apply Hhit. lia.
  - intros Hbefore. apply Hhit. lia.
  - intros Hafter. apply Hmiss. lia.
Qed.

Lemma ttl_boundary_witness :
  request env_zones "GET" "zones" None None None (Some 300) (w_cached 299999)
  = (Fulfilled (Some (JArr [])), w_cached 299999) /\
  (fetches (w_cached 300001%Z) <
   fetches (request env_zones "GET" "zones" None None None (Some 300%Z)
              (w_cached 300001%Z)).2)%nat.
Proof.
  split.
  - destruct (ttl_boundary env_zones "GET" "zones" None None None 300
                (w_cached 299999) zones_entry) as (_ & Hbefore & _).
    + reflexivity.
    + apply Hbefore. simpl. lia.
  - destruct (ttl_boundary env_zones "GET" "zones" None None None 300
                (w_cached 300001) zones_entry) as (_ & _ & Hafter).
    + reflexivity.
    + apply Hafter. simpl. lia.
Defined.

(** ** Expiry is judged by the ttl of the call at hand *)

(** C10, as the code has it: an entry carries no ttl, and a dispatch that
    stored its result under [ttl1] leaves an entry which a later dispatch
    for the same path with a smaller [ttl2] refetches as soon as the entry
    is older than [ttl2] seconds, even while a dispatch with [ttl1] would
    still be answered from the cache.  With ttl 0 the test of line 65 is
    [time e < now]: an entry stamped with the current millisecond, or with
    a later one, is returned without a call; an entry stamped earlier is
    refetched, and so is a path that has no entry. *)
Theorem expiry_uses_current_ttl (env : Env) (method endpoint : string)
    (headers : option (gmap string string)) (body : option JSON)
    (token : option string) (w : World) :
  (forall (ttl1 : Z) (v : JsValue) (w1 : World),
     0 < ttl1 ->
     request env method endpoint headers body token (Some ttl1) w
     = (Fulfilled v, w1) ->
     exists e1, cache w1 !! endpoint = Some e1 /\ result e1 = v /\
       forall (ttl2 t2 : Z),
         ttl2 < ttl1 ->
         time e1 + 1000 * ttl2 < t2 ->
         let later := at_time t2 w1 in
         request env method endpoint headers body token (Some ttl2) later
         = async (request_fetch env method endpoint headers body token ttl2)
             later /\
         (fetches later <
          fetches (request env method endpoint headers body token (Some ttl2)
                     later).2)%nat /\
         (t2 <= time e1 + 1000 * ttl1 ->
          request env method endpoint headers body token (Some ttl1) later
          = (Fulfilled v, later))) /\
  (forall e, cache w !! endpoint = Some e ->
     (now w <= time e ->
      request env method endpoint headers body token (Some 0) w
      = (Fulfilled (result e), w)) /\
     (time e < now w ->
      request env method endpoint headers body token (Some 0) w
      = async (request_fetch env method endpoint headers body token 0) w /\
      (fetches w <
       fetches (request env method endpoint headers body token (Some 0%Z)
                  w).2)%nat)) /\
  (cache w !! endpoint = None ->
   request env method endpoint headers body token (Some 0) w
   = async (request_fetch env method endpoint headers body token 0) w /\
   (fetches w <
    fetches (request env method endpoint headers body token (Some 0%Z)
               w).2)%nat).
Proof.
  split; [|split].
  - intros ttl1 v w1 Hpos Hrun.
    destruct (fresh_entry_cached env method endpoint headers body token
                (Some ttl1) v w w1 Hpos Hrun) as (e1 & He1 & Hv).
    exists e1. split; [done|]. split; [done|].
    intros ttl2 t2 Hlt Hold later.
    assert (misses endpoint (default 300 (Some ttl2)) later) as Hm.
    { unfold misses, expired. simpl. rewrite He1. lia. }
    split; [by apply request_miss|]. split; [by apply request_miss_fetches|].
    intros Hyoung. rewrite <- Hv. apply request_hit; [done|].
    unfold expired. simpl. lia.
  - intros e He. split.
    + intros Hahead. apply request_hit; [done|]. unfold expired. simpl. lia.
    + intros Holder.
      assert (misses endpoint (default 300 (Some 0)) w) as Hm.
      { unfold misses, expired. rewrite He. simpl. lia. }
      split; [by apply request_miss|by apply request_miss_fetches].
  - intros Hnone.
    assert (misses endpoint (default 300 (Some 0)) w) as Hm.
    { unfold misses. by rewrite Hnone. }
    split; [by apply request_miss|by apply request_miss_fetches].
Qed.

Lemma expiry_uses_current_ttl_witness :
  (exists w1,
     request env_zones "GET" "zones" None None None (Some 300) w0
     = (Fulfilled (Some zones_result), w1) /\
     (fetches (at_time 100021 w1) <
      fetches (request env_zones "GET" "zones" None None None (Some 60%Z)
                 (at_time 100021%Z w1)).2)%nat /\
     request env_zones "GET" "zones" None None None (Some 300)
       (at_time 100021 w1)
     = (Fulfilled (Some zones_result), at_time 100021 w1)) /\
  request env_zones "GET" "zones" None None None (Some 0) (w_cached 0)
  = (Fulfilled (Some (JArr [])), w_cached 0) /\
  request env_zones "GET" "zones" None None None (Some 0) (w_cached (-1))
  = (Fulfilled (Some (JArr [])), w_cached (-1)) /\
  (fetches (w_cached 1%Z) <
   fetches (request env_zones "GET" "zones" None None None (Some 0%Z)
              (w_cached 1%Z)).2)%nat /\
  (fetches w0 <
   fetches (request env_zones "GET" "zones" None None None (Some 0%Z)
              w0).2)%nat.
Proof.
  split; [|split; [|split; [|split]]].
  - destruct (expiry_uses_current_ttl env_zones "GET" "zones" None None None w0)
      as [Hwrite _].
    exists (request env_zones "GET" "zones" None None None (Some 300) w0).2.
    split; [vm_compute; reflexivity|].
    destruct (Hwrite 300 (Some zones_result)
                (request env_zones "GET" "zones" None None None (Some 300)
                   w0).2) as (e1 & He1 & _ & Hlater).
    + lia.
    + vm_compute. reflexivity.
    + assert (e1 = {| result := Some zones_result; time := 21 |}) as ->.
      { vm_compute in He1. by injection He1 as <-. }
      destruct (Hlater 60 100021) as (_ & Hcalls & Hhit).
      * lia.
      * simpl. lia.
      * split; [exact Hcalls|]. apply Hhit. simpl. lia.
  - destruct (expiry_uses_current_ttl env_zones "GET" "zones" None None None
                (w_cached 0)) as (_ & Hzero & _).
    destruct (Hzero zones_entry) as [Hsame _]; [reflexivity|].
    apply Hsame. simpl. lia.
  - destruct (expiry_uses_current_ttl env_zones "GET" "zones" None None None
                (w_cached (-1))) as (_ & Hzero & _).
    destruct (Hzero zones_entry) as [Hahead _]; [reflexivity|].
    apply Hahead. simpl. lia.
  - destruct (expiry_uses_current_ttl env_zones "GET" "zones" None None None
                (w_cached 1)) as (_ & Hzero & _).
    destruct (Hzero zones_entry) as [_ Holder]; [reflexivity|].
    apply Holder. simpl. lia.
  - destruct (expiry_uses_current_ttl env_zones "GET" "zones" None None None
                w0) as (_ & _ & Hnone).
    apply Hnone. reflexivity.
Defined.

(** C10, as the specification words it, fails in its last clause: after a
    dispatch has stored its entry at the clock reading 21 and the wall
    clock has been set back to 20, the stored time stamp is not the current
    millisecond, and yet a dispatch with ttl 0 is answered from the cache
    and calls [fetch] never. *)
Lemma ttl_zero_serves_entry_stamped_ahead :
  let w := at_time 20
             (request env_zones "GET" "zones" None None None None w0).2 in
  let run := request env_zones "GET" "zones" None None None (Some 0) w in
  cache w !! "zones" = Some {| result := Some zones_result; time := 21 |} /\
  now w = 20 /\
  run = (Fulfilled (Some zones_result), w) /\
  ~ (fetches w < fetches run.2)%nat.
Proof.
  cbv zeta. split; [|split; [|split]]; try (vm_compute; reflexivity).
  intros H. vm_compute in H. lia.
Qed.

(** ** A ttl of zero *)

(** C5, as the code has it: a dispatch with ttl 0 never writes to the
    cache and leaves every entry as it was, the one of its own path too;
    and of two dispatches of the same path with ttl 0, the second made at
    time [t2], each calls [fetch] at least once, provided the cache holds
    no entry for the path that is stamped at or after the time of the
    dispatch. *)
Theorem ttl_zero_never_caches (env : Env) (method endpoint : string)
    (headers : option (gmap string string)) (body : option JSON)
    (token : option string) (w : World) (t2 : Z) :
  let first := request env method endpoint headers body token (Some 0) w in
  let second := request env method endpoint headers body token (Some 0)
                  (at_time t2 first.2) in
  cache first.2 = cache w /\
  cache second.2 = cache w /\
  ((forall e, cache w !! endpoint = Some e -> time e < now w /\ time e < t2) ->
   (fetches w < fetches first.2)%nat /\
   (fetches first.2 < fetches second.2)%nat).
Proof.
  intros first second.
  assert (cache first.2 = cache w) as Hc1.
  { apply request_cache_frame. right. simpl. lia. }
  assert (cache second.2 = cache w) as Hc2.
  { unfold second. rewrite request_cache_frame; [done|]. right. simpl. lia. }
  split; [done|]. split; [done|]. intros Hold. split.
  - apply request_miss_fetches. unfold misses, expired. simpl.
    destruct (cache w !! endpoint) as [e|] eqn:He; [|done].
    destruct (Hold e eq_refl). lia.
  - change (fetches first.2) with (fetches (at_time t2 first.2)) at 1.
    apply request_miss_fetches. unfold misses, expired. simpl. rewrite Hc1.
    destruct (cache w !! endpoint) as [e|] eqn:He; [|done].
    destruct (Hold e eq_refl). lia.
Qed.

Lemma ttl_zero_never_caches_witness :
  let first := request env_zones "GET" "zones" None None None (Some 0)
                 (w_cached 5) in
  let second := request env_zones "GET" "zones" None None None (Some 0)
                  (at_time 9 first.2) in
  cache second.2 = {[ "zones" := zones_entry ]} /\
  (fetches (w_cached 5) < fetches first.2)%nat /\
  (fetches first.2 < fetches second.2)%nat.
Proof.
  intros first second.
  destruct (ttl_zero_never_caches env_zones "GET" "zones" None None None
              (w_cached 5) 9) as (_ & Hcache & Hcalls).
  split; [exact Hcache|]. apply Hcalls.
  intros e He. vm_compute in He. injection He as <-. simpl. lia.
Defined.

(** C5, as the specification words it, fails: a dispatch with the default ttl that
    the API answers within the millisecond stamps its entry with the
    current reading of the clock; two dispatches of the same path with
    ttl 0 made in that same millisecond are both answered from the cache,
    and [fetch] is called by neither. *)
Lemma ttl_zero_twice_without_fetch :
  let w := (request env_instant "GET" "zones" None None None None w0).2 in
  let first := request env_instant "GET" "zones" None None None (Some 0) w in
  let second := request env_instant "GET" "zones" None None None (Some 0)
                  first.2 in
  cache w !! "zones" = Some {| result := Some zones_result; time := now w |} /\
  first = (Fulfilled (Some zones_result), w) /\
  second = (Fulfilled (Some zones_result), w) /\
  fetches second.2 = fetches w /\
  ~ (fetches w + 2 <= fetches second.2)%nat.
Proof.
  cbv zeta. split; [|split; [|split; [|split]]]; try (vm_compute; reflexivity).
  intros H. vm_compute in H. lia.
Qed.

(** * Credential verification and start-up *)

(** [verifyToken] drops the promise of [request]: whatever the dispatch
    comes to, nothing is thrown inside the [try] block and the function
    resolves with [true]. *)
Lemma verifyToken_always_true (env : Env) (token : string) (w : World) :
  (verifyToken env token w).1 = Fulfilled true.
Proof.
  unfold verifyToken. run.
  by destruct (request env "GET" "user/tokens/verify" None None (Some token)
                 (Some 0) w) as [p w'].
Qed.

(** The functions that await the promise pass the rejection on to their
    caller. *)
Lemma getZones_passes_rejection (env : Env) (w w' : World) (e : Error) :
  request env "GET" "zones" None None None None w = (Rejected e, w') ->
  getZones env w = (Rejected e, w').
Proof. intros Hrun. unfold getZones. run. by rewrite Hrun. Qed.

(** Start-up, for what [verifyToken] resolves with: no variable, or an empty
    one, ends the process, and so does a [false] of the verifier. *)
Lemma load_API_KEY_absent (env : Env) (w : World) :
  (load_API_KEY env None w).1
  = Exited 1 "No Cloudflare API key found in environment variables." /\
  (load_API_KEY env (Some "") w).1
  = Exited 1 "No Cloudflare API key found in environment variables.".
Proof. done. Qed.

Lemma load_API_KEY_gate (env : Env) (key : string) (w : World) :
  key <> "" ->
  (load_API_KEY env (Some key) w).1 =
  match (verifyToken env key w).1 with
  | Fulfilled true => Ready key
  | Fulfilled false => Exited 1 "Invalid Cloudflare API key."
  | Rejected e => Failed e
  end.
Proof.
  intros Hkey. unfold load_API_KEY.
  destruct key as [|c key]; [done|].
  by destruct (verifyToken env (String c key) w) as [[[|]|e] w'].
Qed.

(** C1, evaluated on the code: with the network down the verification dispatch
    rejects with [TransportExhausted], and against an API that answers
    [403] it rejects with an [ApiError]; [verifyToken] resolves with [true]
    both times. *)
Theorem verifyToken_true_on_failed_dispatch :
  (request env_down "GET" "user/tokens/verify" None None (Some "bad")
     (Some 0) w0).1 = Rejected TransportExhausted /\
  (verifyToken env_down "bad" w0).1 = Fulfilled true /\
  (request env_forbidden "GET" "user/tokens/verify" None None (Some "bad")
     (Some 0) w0).1 = Rejected (ApiError "user/tokens/verify" 403) /\
  (verifyToken env_forbidden "bad" w0).1 = Fulfilled true.
Proof. repeat split; vm_compute; reflexivity. Qed.

(** C8, evaluated on the code: a credential the API turns down with [403] passes
    start-up: the process does not exit and [API_KEY] is set to it. *)
Theorem startup_accepts_rejected_key :
  (request env_forbidden "GET" "user/tokens/verify" None None (Some "bad")
     (Some 0) w0).1 = Rejected (ApiError "user/tokens/verify" 403) /\
  (load_API_KEY env_forbidden (Some "bad") w0).1 = Ready "bad" /\
  (load_API_KEY env_down (Some "bad") w0).1 = Ready "bad".
Proof. repeat split; vm_compute; reflexivity. Qed.

(** * A day in the life of the cache *)

(** The scenario of a ["zones"] listing: the first dispatch stores its
    result under the key ["zones"]; a second one 100 s later is answered
    from the cache without a call; a third one 400 s later calls [fetch]
    again and overwrites the entry. *)
Example zones_scenario :
  let first := request env_zones "GET" "zones" None None None None w0 in
  let second := request env_zones "GET" "zones" None None None None
                  (at_time 100021 first.2) in
  let third := request env_zones "GET" "zones" None None None None
                 (at_time 400021 second.2) in
  first.1 = Fulfilled (Some zones_result) /\
  cache first.2 = {[ "zones" := {| result := Some zones_result; time := 21 |} ]} /\
  fetches first.2 = 1%nat /\
  second.1 = Fulfilled (Some zones_result) /\
  fetches second.2 = 1%nat /\
  third.1 = Fulfilled (Some zones_result) /\
  fetches third.2 = 2%nat /\
  cache third.2
  = {[ "zones" := {| result := Some zones_result; time := 400042 |} ]}.
Proof. cbv zeta. repeat split; vm_compute; reflexivity. Qed.

(** * Further properties of the module *)

(** ** What [retriedRequest] resolves with *)

(** The loop in full: it resolves with nothing exactly when it has made [n]
    calls that all were rejected, and otherwise with the response of the
    last call it made, every call before that one rejected. *)
Lemma retry_loop_outcome (env : Env) (init : FetchInit) (n : nat) (w : World) :
  exists o w',
    retry_loop env init n w = (Returned o, w') /\
    match o with
    | None => fetches w' = (fetches w + n)%nat /\
              forall i, (i < n)%nat -> fails_at env init w i
    | Some r => exists k, (k < n)%nat /\
                  fetches w' = (fetches w + k + 1)%nat /\
                  (forall i, (i < k)%nat -> fails_at env init w i) /\
                  responds_at env init w k r
    end.
Proof.
  revert w. induction n as [|n IH]; intros w.
  - exists None, w. split; [done|]. split; [lia|]. intros i Hi. lia.
  - rewrite retry_loop_S. unfold fetch.
    destruct (transport env (fetches w) init) as [dt|dt r] eqn:Hnet.
    + set (w1 := tick dt _).
      assert (fails_at env init w 0) as H0.
      { exists dt. by rewrite Nat.add_0_r. }
      assert (forall i x, transport env (fetches w1 + i)%nat init = x ->
                          transport env (fetches w + S i)%nat init = x) as Hshift.
      { intros i x <-. f_equal. simpl. lia. }
      destruct (IH w1) as (o & w' & -> & Ho). exists o, w'. split; [done|].
      destruct o as [r|].
      * destruct Ho as (k & Hk & Hf & Hfail & [dt' Hresp]).
        exists (S k). split; [lia|]. split; [simpl in Hf; lia|]. split.
        -- intros [|i] Hi; [done|].
           destruct (Hfail i ltac:(lia)) as [dt'' Hdt]. exists dt''. eauto.
        -- exists dt'. eauto.
      * destruct Ho as [Hf Hfail]. split; [simpl in Hf; lia|].
        intros [|i] Hi; [done|].
        destruct (Hfail i ltac:(lia)) as [dt'' Hdt]. exists dt''. eauto.
    + eexists (Some r), _. split; [done|]. exists 0%nat.
      split; [lia|]. split; [simpl; lia|]. split; [intros i Hi; lia|].
      exists dt. by rewrite Nat.add_0_r.
Qed.

(** X1. [retriedRequest] never rejects and never touches the cache.  It
    calls [fetch] at least once and at most ten times; it resolves with
    [undefined] only after ten calls that were all rejected, and otherwise
    with the response of its last call, all calls before it rejected. *)
Theorem retriedRequest_outcome (env : Env) (method endpoint : string)
    (headers : option (gmap string string)) (body : option JSON)
    (token : option string) (w : World) :
  let init := fetch_init env method endpoint headers body token in
  exists o w',
    retriedRequest env method endpoint headers body token w
    = (Fulfilled o, w') /\
    cache w' = cache w /\
    (fetches w < fetches w' <= fetches w + 10)%nat /\
    match o with
    | None => fetches w' = (fetches w + 10)%nat /\
              forall i, (i < 10)%nat -> fails_at env init w i
    | Some r => (forall i, (fetches w + i + 1 < fetches w')%nat ->
                           fails_at env init w i) /\
                responds_at env init w (fetches w' - fetches w - 1) r
    end.
Proof.
  intros init.
  destruct (retry_loop_outcome env init 10 w) as (o & w' & Hloop & Ho).
  destruct (retry_loop_frame env init 10 w) as (o' & w'' & Hloop' & Hc & Hf).
  rewrite Hloop in Hloop'. injection Hloop' as <- <-.
  pose proof (retry_loop_calls env init 10 w ltac:(lia)) as Hcalls.
  rewrite Hloop in Hcalls. simpl in Hcalls.
  exists o, w'. split.
  { unfold retriedRequest, async. fold init. by rewrite Hloop. }
  split; [done|]. split; [lia|].
  destruct o as [r|]; [|done].
  destruct Ho as (k & Hk & Hfk & Hfail & Hresp). split.
  - intros i Hi. apply Hfail. lia.
  - by replace (fetches w' - fetches w - 1)%nat with k by lia.
Qed.

(** ** The headers of a call *)

(** X2. Every attempt goes to the base URL followed by the endpoint, and
    carries the caller's headers as they are; [Authorization] and
    [Content-Type] are added where the caller has not set them, the first
    with the token of the call, and with [API_KEY] when there is none. *)
Theorem fetch_init_headers (env : Env) (method endpoint : string)
    (given : option (gmap string string)) (body : option JSON)
    (token : option string) (name : string) :
  let init := fetch_init env method endpoint given body token in
  url init = "https://api.cloudflare.com/client/v4/" +:+ endpoint /\
  headers init !! name =
    match default ∅ given !! name with
    | Some value => Some value
    | None =>
        if decide (name = "Authorization")
        then Some ("Bearer " +:+ match token with
                                 | Some t => t
                                 | None => API_KEY env
                                 end)
        else if decide (name = "Content-Type") then Some "application/json"
        else None
    end.
Proof.
  intros init. split; [done|]. unfold init, fetch_init. simpl.
  rewrite lookup_union.
  destruct (default ∅ given !! name) as [value|] eqn:Hcaller.
  - by rewrite union_Some_l.
  - rewrite (left_id None _).
    destruct (decide (name = "Authorization")) as [->|Hauth].
    + rewrite lookup_insert_eq. by destruct token.
    + rewrite lookup_insert_ne by done.
      destruct (decide (name = "Content-Type")) as [->|Hct].
      * by rewrite lookup_insert_eq.
      * by rewrite lookup_insert_ne.
Qed.

(** ** What a dispatch does to the cache and to the network *)

(** The unwrapping calls [fetch] never; when it throws the cache is as it
    was, and when it returns [v] the cache has gained the entry of [v] under
    a positive ttl and is as it was otherwise. *)
Lemma request_unwrap_effect (endpoint : string) (ttl : Z)
    (o : option Response) (w : World) :
  let run := request_unwrap endpoint ttl o w in
  fetches run.2 = fetches w /\
  match run.1 with
  | Thrown _ => cache run.2 = cache w
  | Returned v =>
      cache run.2 = if 0 <? ttl
                    then <[endpoint := {| result := v; time := now run.2 |}]>
                           (cache w)
                    else cache w
  end.
Proof.
  destruct o as [r|]; [|done].
  unfold request_unwrap, response_json. run.
  destruct (ok r); simpl; [|done].
  destruct (json r) as [j|]; [|done].
  destruct (0 <? ttl); by destruct j.
Qed.

(** A dispatch that misses, by what the retry loop and the unwrapping
    yield. *)
Lemma request_miss_unfold (env : Env) (method endpoint : string)
    (headers : option (gmap string string)) (body : option JSON)
    (token : option string) (ttl : option Z) (w : World) :
  misses endpoint (default 300 ttl) w ->
  exists o w1,
    retry_loop env (fetch_init env method endpoint headers body token) 10 w
    = (Returned o, w1) /\
    cache w1 = cache w /\
    (fetches w < fetches w1 <= fetches w + 10)%nat /\
    request env method endpoint headers body token ttl w
    = async (request_unwrap endpoint (default 300 ttl) o) w1.
Proof.
  intros Hmiss. rewrite request_miss by done.
  destruct (request_fetch_unfold env method endpoint headers body token
              (default 300 ttl) w) as (o & w1 & Hloop & Hc & Hf & Heq).
  exists o, w1. unfold async. by rewrite Heq.
Qed.

(** X3. A dispatch calls [fetch] at most ten times.  It calls it not at all
    exactly when the cache holds an entry for the endpoint that is not
    expired; the dispatch then changes nothing and resolves with the result
    of that entry, which was stored no longer than ttl seconds before. *)
Theorem request_fetches_iff_stale (env : Env) (method endpoint : string)
    (headers : option (gmap string string)) (body : option JSON)
    (token : option string) (ttl : option Z) (w : World) :
  let run := request env method endpoint headers body token ttl w in
  (fetches w <= fetches run.2 <= fetches w + 10)%nat /\
  (fetches run.2 = fetches w <->
   exists e, cache w !! endpoint = Some e /\
             ~ expired e (now w) (default 300 ttl)) /\
  (fetches run.2 = fetches w ->
   exists e, cache w !! endpoint = Some e /\
             run = (Fulfilled (result e), w) /\
             now w - time e <= 1000 * default 300 ttl).
Proof.
  intros run.
  destruct (hit_or_miss endpoint (default 300 ttl) w)
    as [(e & He & Hfresh)|Hmiss].
  - assert (run = (Fulfilled (result e), w)) as Hrun by by apply request_hit.
    rewrite Hrun. simpl. split; [lia|]. split.
    + split; [eauto|done].
    + intros _. exists e. split; [done|]. split; [done|].
      unfold expired in Hfresh. lia.
  - pose proof (request_miss_fetches env method endpoint headers body token
                  ttl w Hmiss) as Hcalls.
    destruct (request_miss_unfold env method endpoint headers body token
                ttl w Hmiss) as (o & w1 & _ & _ & Hf & Heq).
    fold run in Hcalls.
    assert (fetches run.2 = fetches w1) as Hsame.
    { unfold run. rewrite Heq. unfold async.
      destruct (request_unwrap_effect endpoint (default 300 ttl) o w1)
        as [Hfe _].
      by destruct (request_unwrap endpoint (default 300 ttl) o w1)
        as [[v|e] w']. }
    split; [lia|]. split.
    + split; [lia|]. intros (e & He & Hfresh).
      unfold misses in Hmiss. rewrite He in Hmiss. done.
    + lia.
Qed.

(** The cache after a dispatch, by how the dispatch settled. *)
Lemma request_cache_change (env : Env) (method endpoint : string)
    (headers : option (gmap string string)) (body : option JSON)
    (token : option string) (ttl : option Z) (w : World) :
  let run := request env method endpoint headers body token ttl w in
  match run.1 with
  | Rejected _ => cache run.2 = cache w
  | Fulfilled v =>
      cache run.2 =
      if bool_decide (fetches w < fetches run.2)%nat && (0 <? default 300 ttl)
      then <[endpoint := {| result := v; time := now run.2 |}]> (cache w)
      else cache w
  end.
Proof.
  intros run.
  destruct (hit_or_miss endpoint (default 300 ttl) w)
    as [(e & He & Hfresh)|Hmiss].
  - unfold run.
    rewrite (request_hit env method endpoint headers body token ttl e w)
      by done.
    simpl. rewrite bool_decide_eq_false_2 by lia. done.
  - pose proof (request_miss_fetches env method endpoint headers body token
                  ttl w Hmiss) as Hcalls.
    fold run in Hcalls. rewrite bool_decide_eq_true_2 by done.
    destruct (request_miss_unfold env method endpoint headers body token
                ttl w Hmiss) as (o & w1 & _ & Hc & _ & Heq).
    unfold run. rewrite Heq. unfold async.
    destruct (request_unwrap_effect endpoint (default 300 ttl) o w1)
      as [_ Hce].
    destruct (request_unwrap endpoint (default 300 ttl) o w1)
      as [[v|e] w']; simpl in *; by rewrite Hce, Hc.
Qed.

(** The entries of the other paths are not touched, and the entry of the
    endpoint is overwritten at most, never removed. *)
Lemma request_cache_others (env : Env) (method endpoint : string)
    (headers : option (gmap string string)) (body : option JSON)
    (token : option string) (ttl : option Z) (w : World) :
  let run := request env method endpoint headers body token ttl w in
  (forall path, path <> endpoint -> cache run.2 !! path = cache w !! path) /\
  (forall path, is_Some (cache w !! path) -> is_Some (cache run.2 !! path)) /\
  (forall path, is_Some (cache run.2 !! path) ->
                path = endpoint \/ is_Some (cache w !! path)).
Proof.
  intros run.
  pose proof (request_cache_change env method endpoint headers body token
                ttl w) as Heffect.
  fold run in Heffect. simpl in Heffect.
  destruct run.1 as [v|e]; [|by rewrite Heffect; auto].
  destruct (bool_decide (fetches w < fetches run.2)%nat
            && (0 <? default 300 ttl)); rewrite Heffect; [|by auto].
  split; [|split].
  - intros path Hpath. by rewrite lookup_insert_ne.
  - intros path Hsome.
    destruct (decide (path = endpoint)) as [->|Hne].
    + rewrite lookup_insert_eq. eauto.
    + by rewrite lookup_insert_ne.
  - intros path.
    destruct (decide (path = endpoint)) as [->|Hne]; [by left|].
    rewrite lookup_insert_ne by done. by right.
Qed.

(** X4. A dispatch changes the cache in one way only: when it has gone to
    the network under a positive ttl and resolves with [v], the endpoint is
    mapped to [v] and to the clock reading of that moment.  The entries of
    all other paths stay as they are, and no entry is ever removed. *)
Theorem request_cache_effect (env : Env) (method endpoint : string)
    (headers : option (gmap string string)) (body : option JSON)
    (token : option string) (ttl : option Z) (w : World) :
  let run := request env method endpoint headers body token ttl w in
  match run.1 with
  | Rejected _ => cache run.2 = cache w
  | Fulfilled v =>
      cache run.2 =
      if bool_decide (fetches w < fetches run.2)%nat && (0 <? default 300 ttl)
      then <[endpoint := {| result := v; time := now run.2 |}]> (cache w)
      else cache w
  end /\
  (forall path, path <> endpoint -> cache run.2 !! path = cache w !! path) /\
  (forall path, is_Some (cache w !! path) -> is_Some (cache run.2 !! path)).
Proof.
  intros run. split.
  - apply request_cache_change.
  - destruct (request_cache_others env method endpoint headers body token
                ttl w) as (Hothers & Hkept & _).
    by split.
Qed.

(** ** One cache for every method, body and credential *)

(** X5. The cache is keyed by the path alone.  Once a dispatch under a
    positive ttl has resolved with [v], a dispatch of the same path with
    any other method, headers, body or token, and with any other
    [API_KEY] or network around it, resolves with [v] as long as the entry
    is not expired, and calls [fetch] never. *)
Theorem cache_ignores_method_and_token (env : Env) (method endpoint : string)
    (headers : option (gmap string string)) (body : option JSON)
    (token : option string) (ttl : option Z) (v : JsValue) (w w1 : World) :
  0 < default 300 ttl ->
  request env method endpoint headers body token ttl w = (Fulfilled v, w1) ->
  exists e1, cache w1 !! endpoint = Some e1 /\
    forall (env' : Env) (method' : string)
           (headers' : option (gmap string string)) (body' : option JSON)
           (token' : option string) (ttl' : option Z) (t : Z),
      ~ expired e1 t (default 300 ttl') ->
      request env' method' endpoint headers' body' token' ttl' (at_time t w1)
      = (Fulfilled v, at_time t w1).
Proof.
  intros Hpos Hrun.
  destruct (fresh_entry_cached env method endpoint headers body token
              ttl v w w1 Hpos Hrun) as (e1 & He1 & Hv).
  exists e1. split; [done|]. intros env' method' headers' body' token' ttl' t Hfresh.
  rewrite <- Hv. by apply request_hit.
Qed.

Lemma cache_ignores_method_and_token_witness :
  exists w1,
    request env_zones "GET" "zones" None None (Some "token of Alice") None w0
    = (Fulfilled (Some zones_result), w1) /\
    request env_down "DELETE" "zones" None (Some JNull) (Some "token of Bob")
      (Some 60) (at_time 50000 w1)
    = (Fulfilled (Some zones_result), at_time 50000 w1).
Proof.
  exists (request env_zones "GET" "zones" None None (Some "token of Alice")
            None w0).2.
  split; [vm_compute; reflexivity|].
  destruct (cache_ignores_method_and_token env_zones "GET" "zones" None None
              (Some "token of Alice") None (Some zones_result) w0
              (request env_zones "GET" "zones" None None
                 (Some "token of Alice") None w0).2)
    as (e1 & He1 & Hserved).
  - simpl. lia.
  - vm_compute. reflexivity.
  - apply Hserved.
    assert (e1 = {| result := Some zones_result; time := 21 |}) as ->.
    { vm_compute in He1. by injection He1 as <-. }
    unfold expired. simpl. lia.
Defined.

(** ** Bodies that are not the envelope *)

(** X6. A response with [ok] true whose body is not JSON rejects the
    dispatch with the error of [json()], and one whose body is [null] with
    the [TypeError] of reading [result]; neither is retried: the call that
    brought the response is the last one. *)
Theorem unreadable_body_rejects (env : Env) (method endpoint : string)
    (headers : option (gmap string string)) (body : option JSON)
    (token : option string) (ttl : option Z) (w : World)
    (k : nat) (r : Response) :
  let init := fetch_init env method endpoint headers body token in
  misses endpoint (default 300 ttl) w ->
  (k < 10)%nat ->
  (forall i, (i < k)%nat -> fails_at env init w i) ->
  responds_at env init w k r ->
  ok r = true ->
  json r = None \/ json r = Some JNull ->
  exists w', request env method endpoint headers body token ttl w
             = (Rejected match json r with
                         | Some _ => TypeError
                         | None => InvalidJson
                         end, w') /\
             fetches w' = (fetches w + k + 1)%nat.
Proof.
  intros init Hmiss Hk Hfail Hresp Hok Hbody.
  destruct (request_obtained env method endpoint headers body token
              ttl k r w Hmiss Hk Hfail Hresp) as (w1 & Hc & Hf & ->).
  unfold async, request_unwrap, response_json. run. rewrite Hok. simpl.
  destruct Hbody as [->| ->]; simpl.
  - by eexists.
  - destruct (0 <? default 300 ttl); by eexists.
Qed.

Lemma unreadable_body_rejects_witness :
  (exists w', request (env_answering None) "GET" "zones" None None None None w0
              = (Rejected InvalidJson, w') /\ fetches w' = 1%nat) /\
  (exists w', request (env_answering (Some JNull)) "GET" "zones" None None None
                None w0
              = (Rejected TypeError, w') /\ fetches w' = 1%nat).
Proof.
  split.
  - apply (unreadable_body_rejects (env_answering None) "GET" "zones" None None
             None None w0 0
             {| ok := true; status := 200; json := None; json_elapsed := 1 |}).
    + exact I.
    + lia.
    + intros i Hi. lia.
    + exists 20. reflexivity.
    + reflexivity.
    + left. reflexivity.
  - apply (unreadable_body_rejects (env_answering (Some JNull)) "GET" "zones"
             None None None None w0 0
             {| ok := true; status := 200; json := Some JNull;
                json_elapsed := 1 |}).
    + exact I.
    + lia.
    + intros i Hi. lia.
    + exists 20. reflexivity.
    + reflexivity.
    + right. reflexivity.
Defined.

(** X7. A response with [ok] true whose body is JSON but holds no [result]
    (an object without that field, an array, a number, a string, a Boolean)
    resolves the dispatch with [undefined]; under a positive ttl that
    [undefined] is cached, and the next dispatch of the path, made while the
    entry is not expired, resolves with [undefined] without a call. *)
Theorem missing_result_is_cached (env : Env) (method endpoint : string)
    (headers : option (gmap string string)) (body : option JSON)
    (token : option string) (ttl : option Z) (w : World)
    (k : nat) (r : Response) (j : JSON) :
  let init := fetch_init env method endpoint headers body token in
  misses endpoint (default 300 ttl) w ->
  (k < 10)%nat ->
  (forall i, (i < k)%nat -> fails_at env init w i) ->
  responds_at env init w k r ->
  ok r = true ->
  json r = Some j ->
  j <> JNull ->
  (forall fields, j = JObj fields -> get_field "result" fields = None) ->
  exists w', request env method endpoint headers body token ttl w
             = (Fulfilled None, w') /\
    (0 < default 300 ttl ->
     cache w' !! endpoint = Some {| result := None; time := now w' |} /\
     forall t, t - 1000 * default 300 ttl <= now w' ->
       request env method endpoint headers body token ttl (at_time t w')
       = (Fulfilled None, at_time t w')).
Proof.
  intros init Hmiss Hk Hfail Hresp Hok Hjson Hnull Hnone.
  destruct (request_obtained env method endpoint headers body token
              ttl k r w Hmiss Hk Hfail Hresp) as (w1 & Hc & Hf & Heq).
  assert (exists w', request_unwrap endpoint (default 300 ttl) (Some r) w1
                     = (Returned None, w')) as [w' Hun].
  { unfold request_unwrap, response_json. run. rewrite Hok, Hjson. simpl.
    destruct j as [|b|n|s|items|fields]; simpl; try done;
      try (destruct (0 <? default 300 ttl); by eexists).
    rewrite (Hnone fields eq_refl).
    destruct (0 <? default 300 ttl); by eexists. }
  exists w'. rewrite Heq. unfold async. rewrite Hun. split; [done|].
  intros Hpos.
  pose proof (request_unwrap_returned endpoint (default 300 ttl) (Some r) None
                w1 w' Hun Hpos) as Hentry.
  split; [done|]. intros t Ht.
  apply (request_hit env method endpoint headers body token ttl
           {| result := None; time := now w' |} (at_time t w')); [done|].
  unfold expired. simpl. lia.
Qed.

Lemma missing_result_is_cached_witness :
  exists w',
    request (env_answering (Some (JObj [("success", JBool false)]))) "GET"
      "zones" None None None None w0 = (Fulfilled None, w') /\
    request (env_answering (Some (JObj [("success", JBool false)]))) "GET"
      "zones" None None None None (at_time 1000 w')
    = (Fulfilled None, at_time 1000 w').
Proof.
  destruct (missing_result_is_cached
              (env_answering (Some (JObj [("success", JBool false)])))
              "GET" "zones" None None None None w0 0
              {| ok := true; status := 200;
                 json := Some (JObj [("success", JBool false)]);
                 json_elapsed := 1 |}
              (JObj [("success", JBool false)]))
    as (w' & Hrun & Hcached).
  - exact I.
  - lia.
  - intros i Hi. lia.
  - exists 20. reflexivity.
  - reflexivity.
  - reflexivity.
  - discriminate.
  - intros fields Hfields. injection Hfields as <-. reflexivity.
  - exists w'. split; [exact Hrun|].
    destruct Hcached as [_ Hnext]; [simpl; lia|].
    apply Hnext.
    assert (now w' = 21) as ->.
    { vm_compute in Hrun. by injection Hrun as <-. }
    simpl. lia.
Defined.

(** ** Time stamps *)

Lemma retry_loop_clock (env : Env) (init : FetchInit) (n : nat) (w : World) :
  clock_forward env -> now w <= now (retry_loop env init n w).2.
Proof.
  intros Hclock. revert w. induction n as [|n IH]; intros w; [done|].
  rewrite retry_loop_S. unfold fetch.
  pose proof (Hclock (fetches w) init) as Hdt.
  destruct (transport env (fetches w) init) as [dt|dt r]; simpl.
  - etrans; [|apply IH]. simpl. lia.
  - lia.
Qed.

Lemma request_unwrap_clock (endpoint : string) (ttl : Z)
    (o : option Response) (w : World) :
  (forall r, o = Some r -> 0 <= json_elapsed r) ->
  now w <= now (request_unwrap endpoint ttl o w).2.
Proof.
  intros Hread. destruct o as [r|]; [|done].
  specialize (Hread r eq_refl).
  unfold request_unwrap, response_json. run.
  destruct (ok r); simpl; [|done].
  destruct (json r) as [j|]; simpl; [|lia].
  destruct (0 <? ttl); destruct j; simpl; lia.
Qed.

(** X8. Where the wall clock does not run backwards, a dispatch keeps the
    cache free of entries stamped later than the current reading of the
    clock: if no entry is when the dispatch is made, none is when it
    settles, and the clock has not gone back meanwhile. *)
Theorem no_entry_from_the_future (env : Env) (method endpoint : string)
    (headers : option (gmap string string)) (body : option JSON)
    (token : option string) (ttl : option Z) (w : World) :
  clock_forward env ->
  (forall path e, cache w !! path = Some e -> time e <= now w) ->
  let run := request env method endpoint headers body token ttl w in
  now w <= now run.2 /\
  (forall path e, cache run.2 !! path = Some e -> time e <= now run.2).
Proof.
  intros Hclock Hpast run.
  destruct (hit_or_miss endpoint (default 300 ttl) w)
    as [(e & He & Hfresh)|Hmiss].
  - unfold run.
    rewrite (request_hit env method endpoint headers body token ttl e w)
      by done.
    simpl. split; [lia|done].
  - set (init := fetch_init env method endpoint headers body token).
    destruct (request_miss_unfold env method endpoint headers body token
                ttl w Hmiss) as (o & w1 & Hloop & Hc & _ & Heq).
    pose proof (retry_loop_clock env init 10 w Hclock) as Hnow1.
    fold init in Hloop. rewrite Hloop in Hnow1. simpl in Hnow1.
    assert (forall r, o = Some r -> 0 <= json_elapsed r) as Hread.
    { intros r ->.
      destruct (retry_loop_outcome env init 10 w) as (o' & w1' & Hloop' & Ho).
      rewrite Hloop in Hloop'. injection Hloop' as <- <-.
      destruct Ho as (k & _ & _ & _ & [dt Hresp]).
      pose proof (Hclock (fetches w + k)%nat init) as Hdt.
      rewrite Hresp in Hdt. tauto. }
    pose proof (request_unwrap_clock endpoint (default 300 ttl) o w1 Hread)
      as Hnow2.
    destruct (request_unwrap_effect endpoint (default 300 ttl) o w1)
      as [_ Hce].
    unfold run. rewrite Heq. unfold async.
    destruct (request_unwrap endpoint (default 300 ttl) o w1)
      as [[v|e] w'] eqn:Hun; simpl in *.
    + split; [lia|]. intros path e.
      destruct (0 <? default 300 ttl); rewrite Hce, Hc.
      * destruct (decide (path = endpoint)) as [->|Hne].
        -- rewrite lookup_insert_eq. intros [= <-]. simpl. lia.
        -- rewrite lookup_insert_ne by done. intros He.
           specialize (Hpast path e He). lia.
      * intros He. specialize (Hpast path e He). lia.
    + split; [lia|]. intros path e'. rewrite Hce, Hc. intros He.
      specialize (Hpast path e' He). lia.
Qed.

Lemma no_entry_from_the_future_witness :
  let run := request env_zones "GET" "zones" None None None None
               (w_cached 400000) in
  now (w_cached 400000) <= now run.2 /\
  (forall path e, cache run.2 !! path = Some e -> time e <= now run.2).
Proof.
  apply (no_entry_from_the_future env_zones "GET" "zones" None None None None
           (w_cached 400000)).
  - intros n init. simpl. lia.
  - intros path e He. unfold w_cached in He. simpl in He.
    apply lookup_singleton_Some in He as [_ <-]. simpl. lia.
Defined.

(** * The exported functions *)

(** ** [getZones] and [getRecords] *)

(** A promise that is awaited at once and returned settles the caller as it
    settled itself. *)
Lemma awaited_call {A : Type} (f : Async A) (w : World) :
  async (p ← call f; await p) w = f w.
Proof. run. by destruct (f w) as [[a|e] w']. Qed.

Lemma getZones_request (env : Env) (w : World) :
  getZones env w = request env "GET" "zones" None None None None w.
Proof. apply awaited_call. Qed.

Lemma getRecords_request (env : Env) (zoneId : string) (w : World) :
  getRecords env zoneId w
  = request env "GET" (records_path zoneId) None None None None w.
Proof. apply awaited_call. Qed.

Lemma string_app_length (s t : string) :
  String.length (s +:+ t) = (String.length s + String.length t)%nat.
Proof. induction s as [|c s IH]; simpl; [done|]. by rewrite IH. Qed.

Lemma string_app_inv_tail (s1 s2 t : string) :
  s1 +:+ t = s2 +:+ t -> s1 = s2.
Proof.
  revert s2. induction s1 as [|c s1 IH]; intros [|c' s2] Heq; simpl in Heq.
  - done.
  - apply (f_equal String.length) in Heq. simpl in Heq.
    rewrite ?string_app_length in Heq. simpl in Heq. lia.
  - apply (f_equal String.length) in Heq. simpl in Heq.
    rewrite ?string_app_length in Heq. simpl in Heq. lia.
  - injection Heq as -> Heq. f_equal. by apply IH.
Qed.

(** The keys of the cache: one per zone for the records, none of them the
    key of the listing or the path of the verification. *)
Lemma records_path_inj (z1 z2 : string) :
  records_path z1 = records_path z2 -> z1 = z2.
Proof.
  unfold records_path. intros Heq.
  apply (inj (String.app "zones/")) in Heq.
  by apply string_app_inv_tail in Heq.
Qed.

Lemma records_path_not_zones (z : string) : records_path z <> "zones".
Proof.
  unfold records_path. intros Heq.
  apply (f_equal String.length) in Heq.
  rewrite !string_app_length in Heq. simpl in Heq. lia.
Qed.

Lemma records_path_not_verify (z : string) :
  records_path z <> "user/tokens/verify".
Proof.
  unfold records_path. intros Heq.
  apply (f_equal (fun s => String.get 0 s)) in Heq. cbn in Heq. discriminate.
Qed.

(** X9. The records of a zone are cached under a key of their own: when
    [getRecords] resolves, the value is the entry of ["zones/<id>/dns_records"],
    and the entries of the other zones and of the listing are as they
    were, whatever the zone ids are. *)
Theorem getRecords_keeps_other_zones (env : Env) (zoneId other : string)
    (w : World) :
  other <> zoneId ->
  let run := getRecords env zoneId w in
  cache run.2 !! records_path other = cache w !! records_path other /\
  cache run.2 !! "zones" = cache w !! "zones" /\
  (forall v, run.1 = Fulfilled v ->
     exists e, cache run.2 !! records_path zoneId = Some e /\ result e = v).
Proof.
  intros Hother run. unfold run. rewrite getRecords_request.
  destruct (request_cache_others env "GET" (records_path zoneId) None None None
              None w) as (Hothers & _ & _).
  split; [|split].
  - apply Hothers. intros Heq. by apply records_path_inj in Heq.
  - apply Hothers. intros Heq. symmetry in Heq.
    by apply records_path_not_zones in Heq.
  - intros v Hv.
    destruct (request env "GET" (records_path zoneId) None None None None w)
      as [p w1] eqn:Hrun.
    simpl in Hv. subst p.
    apply (fresh_entry_cached env "GET" (records_path zoneId) None None None
             None v w w1); [simpl; lia|done].
Qed.

Lemma getRecords_keeps_other_zones_witness :
  let w := (getRecords env_account "z1" w0).2 in
  let run := getRecords env_account "z2" w in
  cache run.2 !! records_path "z1" = cache w !! records_path "z1" /\
  cache run.2 !! "zones" = cache w !! "zones" /\
  (forall v, run.1 = Fulfilled v ->
     exists e, cache run.2 !! records_path "z2" = Some e /\ result e = v).
Proof.
  apply (getRecords_keeps_other_zones env_account "z2" "z1").
  discriminate.
Defined.

(** X10. The listing of the zones is kept for five minutes: once [getZones]
    has resolved with [v], a [getZones] made no later than 300 000 ms after
    the entry was stored resolves with [v] and calls [fetch] never, and one
    made later than that goes to the network again. *)
Theorem getZones_five_minutes (env : Env) (v : JsValue) (w w1 : World) :
  getZones env w = (Fulfilled v, w1) ->
  exists e1, cache w1 !! "zones" = Some e1 /\ result e1 = v /\
    forall t,
      (t <= time e1 + 300000 ->
       getZones env (at_time t w1) = (Fulfilled v, at_time t w1)) /\
      (time e1 + 300000 < t ->
       (fetches w1 < fetches (getZones env (at_time t w1)).2)%nat).
Proof.
  rewrite getZones_request. intros Hrun.
  destruct (fresh_entry_cached env "GET" "zones" None None None None v w w1)
    as (e1 & He1 & Hv); [simpl; lia|done|].
  exists e1. split; [done|]. split; [done|]. intros t. split.
  - intros Hyoung. rewrite getZones_request, <- Hv.
    apply request_hit; [done|]. unfold expired. simpl. lia.
  - intros Hold. rewrite getZones_request.
    change (fetches w1) with (fetches (at_time t w1)).
    apply request_miss_fetches. unfold misses, expired. simpl.
    rewrite He1. lia.
Qed.

Lemma getZones_five_minutes_witness :
  exists w1,
    getZones env_zones w0 = (Fulfilled (Some zones_result), w1) /\
    getZones env_zones (at_time 300021 w1)
    = (Fulfilled (Some zones_result), at_time 300021 w1) /\
    (fetches w1 < fetches (getZones env_zones (at_time 300022 w1)).2)%nat.
Proof.
  exists (getZones env_zones w0).2.
  split; [vm_compute; reflexivity|].
  destruct (getZones_five_minutes env_zones (Some zones_result) w0
              (getZones env_zones w0).2) as (e1 & He1 & _ & Hlater).
  - vm_compute. reflexivity.
  - assert (e1 = {| result := Some zones_result; time := 21 |}) as ->.
    { vm_compute in He1. by injection He1 as <-. }
    split.
    + apply (Hlater 300021). simpl. lia.
    + apply (Hlater 300022). simpl. lia.
Defined.

(** ** [verifyToken] and start-up *)

(** The module reads its surroundings through [fetch] alone, and [API_KEY]
    only where the call has no token. *)
Lemma retry_loop_same_answers (env env' : Env) (init : FetchInit) (n : nat)
    (w : World) :
  (forall k, transport env k init = transport env' k init) ->
  retry_loop env init n w = retry_loop env' init n w.
Proof.
  intros Hnet. revert w. induction n as [|n IH]; intros w; [done|].
  rewrite !retry_loop_S. unfold fetch. rewrite Hnet.
  by destruct (transport env' (fetches w) init).
Qed.

Lemma request_same_answers (env env' : Env) (method endpoint : string)
    (headers : option (gmap string string)) (body : option JSON)
    (token : option string) (ttl : option Z) (w : World) :
  fetch_init env method endpoint headers body token
  = fetch_init env' method endpoint headers body token ->
  (forall k, transport env k (fetch_init env method endpoint headers body token)
             = transport env' k
                 (fetch_init env method endpoint headers body token)) ->
  request env method endpoint headers body token ttl w
  = request env' method endpoint headers body token ttl w.
Proof.
  intros Hinit Hnet.
  destruct (hit_or_miss endpoint (default 300 ttl) w)
    as [(e & He & Hfresh)|Hmiss].
  - by rewrite !(request_hit _ method endpoint headers body token ttl e w).
  - rewrite !request_miss by done.
    unfold request_fetch, retriedRequest. run.
    rewrite <- Hinit. by rewrite (retry_loop_same_answers env env').
Qed.

(** The argument of the calls of [verifyToken]. *)
Lemma fetch_init_verify (env : Env) (token : string) :
  fetch_init env "GET" "user/tokens/verify" None None (Some token)
  = verify_request token.
Proof.
  unfold fetch_init, verify_request.
  f_equal; simpl; by rewrite ?(left_id ∅ (∪)), ?insert_empty.
Qed.

(** The world [verifyToken] leaves is the world its dispatch leaves. *)
Lemma verifyToken_world (env : Env) (token : string) (w : World) :
  (verifyToken env token w).2
  = (request env "GET" "user/tokens/verify" None None (Some token) (Some 0)
       w).2.
Proof.
  unfold verifyToken. run.
  by destruct (request env "GET" "user/tokens/verify" None None (Some token)
                 (Some 0) w).
Qed.

(** No dispatch calls [fetch] more than ten times. *)
Lemma request_calls_bound (env : Env) (method endpoint : string)
    (headers : option (gmap string string)) (body : option JSON)
    (token : option string) (ttl : option Z) (w : World) :
  let run := request env method endpoint headers body token ttl w in
  (fetches w <= fetches run.2 <= fetches w + 10)%nat.
Proof.
  intros run. unfold run.
  destruct (hit_or_miss endpoint (default 300 ttl) w)
    as [(e & He & Hfresh)|Hmiss].
  - rewrite (request_hit env method endpoint headers body token ttl e w)
      by done.
    simpl. lia.
  - rewrite request_miss by done. unfold async.
    destruct (request_fetch_frame env method endpoint headers body token
                (default 300 ttl) w) as [Hcalls _].
    destruct (request_fetch env method endpoint headers body token
                (default 300 ttl) w) as [[v|e] w']; simpl in *; lia.
Qed.

(** The dispatch [verifyToken] starts writes nothing into the cache and calls
    [fetch] ten times at most. *)
Lemma verifyToken_frame (env : Env) (token : string) (w : World) :
  let run := verifyToken env token w in
  cache run.2 = cache w /\
  (fetches w <= fetches run.2 <= fetches w + 10)%nat.
Proof.
  intros run. unfold run, verifyToken. run.
  pose proof (request_cache_frame env "GET" "user/tokens/verify" None None
                (Some token) (Some 0) w) as Hcache.
  pose proof (request_calls_bound env "GET" "user/tokens/verify" None None
                (Some token) (Some 0) w) as Hbound.
  simpl in Hcache, Hbound.
  destruct (request env "GET" "user/tokens/verify" None None (Some token)
              (Some 0) w) as [p w']; simpl in *.
  split; [|done]. apply Hcache. right. lia.
Qed.

(** X11. [verifyToken] resolves with [true] for every token, whatever the
    network does, and leaves the cache as it was.  The calls of [fetch] it
    brings about, ten at most, are made with the token it was given, as a
    [GET] of [user/tokens/verify] under [Authorization: Bearer <token>]:
    what the network does with any other request, and the value of
    [API_KEY], have no part in it, and where the cache holds nothing for
    the path that is not expired the number of calls is the number the
    network leaves to this request, ten when it rejects it every time and
    [k + 1] when it answers it after [k] rejections. *)
Theorem verifyToken_effect (env : Env) (token : string) (w : World) :
  let run := verifyToken env token w in
  let init := verify_request token in
  run.1 = Fulfilled true /\
  cache run.2 = cache w /\
  (fetches w <= fetches run.2 <= fetches w + 10)%nat /\
  (forall env',
     (forall k, transport env' k init = transport env k init) ->
     verifyToken env' token w = run) /\
  (forall key,
     verifyToken {| transport := transport env; API_KEY := key |} token w
     = run) /\
  (misses "user/tokens/verify" 0 w ->
   ((forall i, (i < 10)%nat -> fails_at env init w i) ->
    fetches run.2 = (fetches w + 10)%nat) /\
   (forall (k : nat) (r : Response),
      (k < 10)%nat ->
      (forall i, (i < k)%nat -> fails_at env init w i) ->
      responds_at env init w k r ->
      fetches run.2 = (fetches w + k + 1)%nat)).
Proof.
  intros run init.
  assert (forall env',
            (forall k, transport env' k init = transport env k init) ->
            verifyToken env' token w = run) as Hsame.
  { intros env' Hnet. unfold run, verifyToken. run.
    rewrite (request_same_answers env' env); [done|..].
    - by rewrite !fetch_init_verify.
    - intros k. rewrite fetch_init_verify. apply Hnet. }
  split; [apply verifyToken_always_true|].
  destruct (verifyToken_frame env token w) as [Hcache Hcalls].
  split; [done|]. split; [done|]. split; [done|]. split.
  { intros key. by apply Hsame. }
  intros Hmiss. unfold run. rewrite verifyToken_world. split.
  - intros Hfail.
    destruct (request_exhausted env "GET" "user/tokens/verify" None None
                (Some token) (Some 0) w) as (w' & -> & _ & Hf); [done| |done].
    by rewrite fetch_init_verify.
  - intros k r Hk Hfail Hresp.
    destruct (request_obtained env "GET" "user/tokens/verify" None None
                (Some token) (Some 0) k r w) as (w1 & _ & Hf & ->);
      [done|done|by rewrite fetch_init_verify|by rewrite fetch_init_verify|].
    unfold async.
    destruct (request_unwrap_effect "user/tokens/verify" (default 300 (Some 0))
                (Some r) w1) as [Hsamef _].
    destruct (request_unwrap "user/tokens/verify" (default 300 (Some 0))
                (Some r) w1) as [[v|e] w']; simpl in *; lia.
Qed.

Lemma verifyToken_effect_witness :
  fetches (verifyToken env_keyed "good" w0).2 = 1%nat /\
  fetches (verifyToken env_keyed "bad" w0).2 = 10%nat.
Proof.
  split.
  - destruct (verifyToken_effect env_keyed "good" w0)
      as (_ & _ & _ & _ & _ & Hcalls).
    destruct Hcalls as [_ Hanswered]; [exact I|].
    apply (Hanswered 0%nat zones_ok).
    + lia.
    + intros i Hi. lia.
    + exists 20. reflexivity.
  - destruct (verifyToken_effect env_keyed "bad" w0)
      as (_ & _ & _ & _ & _ & Hcalls).
    destruct Hcalls as [Hrejected _]; [exact I|].
    apply Hrejected. intros i Hi. exists 5. reflexivity.
Defined.

(** X12. Start-up is decided by the environment variable alone: without
    it, or with an empty one, the process exits with code 1 before any
    call is made; with any other value the process goes on with that value
    as [API_KEY], whatever the verification dispatch came to, the cache
    still as it was and at most ten calls of [fetch] made. *)
Theorem load_API_KEY_outcome (env : Env) (variable : option string)
    (w : World) :
  let run := load_API_KEY env variable w in
  match variable with
  | Some (String c rest) =>
      run.1 = Ready (String c rest) /\
      cache run.2 = cache w /\
      (fetches w <= fetches run.2 <= fetches w + 10)%nat
  | _ =>
      run = (Exited 1 "No Cloudflare API key found in environment variables.",
             w)
  end.
Proof.
  intros run. destruct variable as [[|c rest]|]; [done| |done].
  unfold run, load_API_KEY.
  pose proof (verifyToken_always_true env (String c rest) w) as Htrue.
  pose proof (verifyToken_frame env (String c rest) w) as Hframe.
  destruct (verifyToken env (String c rest) w) as [[[|]|e] w'];
    simpl in *; done.
Qed.

(** ** [getZonesAndRecords] *)

Lemma null_or_not (zone : JSON) : zone = JNull \/ zone <> JNull.
Proof. destruct zone; by (left + right). Qed.

(** One turn of the loop of lines 51-54: reading [id] of a [null] zone
    throws; any other zone has its records dispatched, and the loop goes on
    when they have come. *)
Lemma collect_records_null (env : Env) (rest : list JSON)
    (data : list (gmap string JsValue)) (w : World) :
  collect_records env (JNull :: rest) data w = (Thrown TypeError, w).
Proof. done. Qed.

Lemma collect_records_step (env : Env) (zone : JSON) (rest : list JSON)
    (data : list (gmap string JsValue)) (w : World) :
  zone <> JNull ->
  collect_records env (zone :: rest) data w =
  match request env "GET" (zone_path zone) None None None None w with
  | (Fulfilled r, w1) =>
      collect_records env rest (data ++ [<["records" := r]> (spread zone)]) w1
  | (Rejected e, w1) => (Thrown e, w1)
  end.
Proof.
  intros Hzone.
  assert (forall id,
            (promise ← call (getRecords env (js_string id));
             zoneRecords ← await promise;
             collect_records env rest
               (data ++ [<["records" := zoneRecords]> (spread zone)])) w
            = match request env "GET" (records_path (js_string id)) None None
                      None None w with
              | (Fulfilled r, w1) =>
                  collect_records env rest
                    (data ++ [<["records" := r]> (spread zone)]) w1
              | (Rejected e, w1) => (Thrown e, w1)
              end) as Hstep.
  { intros id. run. rewrite getRecords_request.
    by destruct (request env "GET" (records_path (js_string id)) None None
                   None None w) as [[r|e] w1]. }
  destruct zone; try done; apply Hstep.
Qed.


(** A run of the loop: it calls [fetch] ten times a zone at most, it
    removes no entry, and it touches the entries of its zones only. *)
Lemma collect_records_frame (env : Env) (zones : list JSON)
    (data : list (gmap string JsValue)) (w : World) :
  let run := collect_records env zones data w in
  (fetches w <= fetches run.2 <= fetches w + 10 * length zones)%nat /\
  (forall path, is_Some (cache w !! path) -> is_Some (cache run.2 !! path)) /\
  (forall path, path ∉ zone_path <$> zones ->
                cache run.2 !! path = cache w !! path).
Proof.
  revert data w. induction zones as [|zone zones IH]; intros data w.
  { simpl. split; [lia|done]. }
  destruct (null_or_not zone) as [->|Hzone].
  { rewrite collect_records_null. simpl. split; [lia|done]. }
  rewrite collect_records_step by done.
  pose proof (request_calls_bound env "GET" (zone_path zone) None None None
                None w) as Hbound.
  destruct (request_cache_others env "GET" (zone_path zone) None None None
              None w) as (Hothers & Hkept & _).
  destruct (request env "GET" (zone_path zone) None None None None w)
    as [[r|e] w1]; simpl in *.
  - specialize (IH (data ++ [<["records" := r]> (spread zone)]) w1).
    destruct IH as (IHf & IHkept & IHothers).
    split; [lia|]. split.
    + intros path Hp. apply IHkept, Hkept, Hp.
    + intros path Hp. apply not_elem_of_cons in Hp as [Hne Hp].
      rewrite IHothers by done. by apply Hothers.
  - split; [lia|]. split; [done|].
    intros path Hp. apply not_elem_of_cons in Hp as [Hne Hp]. by apply Hothers.
Qed.

(** The aggregate is the listing followed by the loop over what it
    yields. *)
Lemma getZonesAndRecords_unfold (env : Env) (w : World) :
  getZonesAndRecords env w =
  match getZones env w with
  | (Rejected e, w1) => (Rejected e, w1)
  | (Fulfilled zones, w1) =>
      async (items ← iterate zones; collect_records env items []) w1
  end.
Proof.
  unfold getZonesAndRecords. run.
  by destruct (getZones env w) as [[zones|e] w1].
Qed.

(** What [for ... of] walks over, where it walks at all. *)
Lemma iterate_returned (zones : JsValue) (items : list JSON) (w w' : World) :
  iterate zones w = (Returned items, w') ->
  w' = w /\
  (zones = Some (JArr items) \/ exists s, zones = Some (JStr s) /\ items = chars s).
Proof.
  destruct zones as [[| | |s|items'|]|]; try done; intros [= <- <-]; eauto.
Qed.

(** X13. When the listing of the zones rejects, [getZonesAndRecords] rejects
    with the same error and dispatches nothing more.  When the listing
    resolves with an empty array it resolves with an empty array; when it
    resolves with something that is neither an array nor a string
    ([undefined] for an envelope without [result], [null], a number, a
    Boolean, an object), or with an array that starts with [null], it
    rejects with a [TypeError]. *)
Theorem getZonesAndRecords_listing (env : Env) (w w1 : World) :
  let run := getZonesAndRecords env w in
  (forall e, getZones env w = (Rejected e, w1) -> run = (Rejected e, w1)) /\
  (forall zones, getZones env w = (Fulfilled zones, w1) ->
     (zones = Some (JArr []) -> run = (Fulfilled [], w1)) /\
     ((forall items, zones <> Some (JArr items)) ->
      (forall s, zones <> Some (JStr s)) ->
      run = (Rejected TypeError, w1)) /\
     (forall rest, zones = Some (JArr (JNull :: rest)) ->
      run = (Rejected TypeError, w1))).
Proof.
  intros run. unfold run. rewrite getZonesAndRecords_unfold. split.
  - by intros e ->.
  - intros zones ->. split; [|split].
    + by intros ->.
    + intros Harr Hstr.
      destruct zones as [[| | |s|items|]|]; try done.
      * by destruct (Hstr s).
      * by destruct (Harr items).
    + by intros rest ->.
Qed.

(** The loop appends one object a zone, in the order of the zones: the
    properties the zone spreads to, with [records] set. *)
Lemma collect_records_shape (env : Env) (zones : list JSON)
    (data out : list (gmap string JsValue)) (w w' : World) :
  collect_records env zones data w = (Returned out, w') ->
  exists added,
    out = data ++ added /\
    Forall2 (fun zone object =>
               zone <> JNull /\
               exists r, object = <["records" := r]> (spread zone))
            zones added.
Proof.
  revert data w. induction zones as [|zone zones IH]; intros data w Hrun.
  { injection Hrun as <- <-. exists []. by rewrite app_nil_r. }
  destruct (null_or_not zone) as [->|Hzone]; [done|].
  rewrite collect_records_step in Hrun by done.
  destruct (request env "GET" (zone_path zone) None None None None w)
    as [[r|e] w1]; [|done].
  destruct (IH _ _ Hrun) as (added & -> & Hall).
  exists (<["records" := r]> (spread zone) :: added).
  split; [by rewrite <- app_assoc|].
  constructor; [|done]. split; [done|by exists r].
Qed.

(** The properties of an object, once spread, are its fields. *)
Lemma spread_object (fields : list (string * JSON)) (name : string) :
  spread (JObj fields) !! name = Some <$> get_field name fields.
Proof.
  unfold spread. rewrite lookup_fmap. f_equal.
  induction fields as [|[k v] fields IH]; [done|].
  simpl. destruct (String.eqb_spec k name) as [->|Hne].
  - by rewrite lookup_insert_eq.
  - by rewrite lookup_insert_ne.
Qed.

(** What the loop appends is gathered dispatch by dispatch. *)
Lemma collect_records_gathered (env : Env) (zones : list JSON)
    (data out : list (gmap string JsValue)) (w w' : World) :
  collect_records env zones data w = (Returned out, w') ->
  exists added, out = data ++ added /\ gathered env zones added w w'.
Proof.
  revert data w. induction zones as [|zone zones IH]; intros data w Hrun.
  { injection Hrun as <- <-. exists []. by rewrite app_nil_r. }
  destruct (null_or_not zone) as [->|Hzone]; [done|].
  rewrite collect_records_step in Hrun by done.
  destruct (request env "GET" (zone_path zone) None None None None w)
    as [[r|e] w1] eqn:Hreq; [|done].
  destruct (IH _ _ Hrun) as (added & -> & Hrest).
  exists (<["records" := r]> (spread zone) :: added).
  split; [by rewrite <- app_assoc|].
  simpl. split; [done|]. exists r, w1.
  split; [by rewrite getRecords_request|]. by split.
Qed.

(** X14. When [getZonesAndRecords] resolves, the listing had resolved with
    an array (or a string), and the result holds one object for each of its
    elements, in their order: none of the elements is [null], and the
    object of a zone is the zone spread out with [records] set to what the
    [getRecords] of that zone's [id] resolved with, the dispatches made one
    after the other in the order of the zones, the first in the world the
    listing left and the last leaving the world of the result; for a zone
    that is an object, every property but [records] reads as the field of
    the zone. *)
Theorem getZonesAndRecords_shape (env : Env)
    (data : list (gmap string JsValue)) (w w' : World) :
  getZonesAndRecords env w = (Fulfilled data, w') ->
  exists zones items w1,
    getZones env w = (Fulfilled zones, w1) /\
    (zones = Some (JArr items) \/
     exists s, zones = Some (JStr s) /\ items = chars s) /\
    length data = length items /\
    gathered env items data w1 w' /\
    Forall2 (fun zone object =>
               zone <> JNull /\
               (exists r, object = <["records" := r]> (spread zone)) /\
               forall fields name, zone = JObj fields -> name <> "records" ->
                 object !! name = Some <$> get_field name fields)
            items data.
Proof.
  rewrite getZonesAndRecords_unfold.
  destruct (getZones env w) as [[zones|e] w1]; [|done].
  unfold async. run.
  destruct (iterate zones w1) as [[items|e] w2] eqn:Hit; [|done].
  apply iterate_returned in Hit as [-> Hzones].
  destruct (collect_records env items [] w1) as [[out|e] w3] eqn:Hloop; [|done].
  intros [= <- <-].
  destruct (collect_records_shape env items [] out w1 w3 Hloop)
    as (added & -> & Hall).
  destruct (collect_records_gathered env items [] _ w1 w3 Hloop)
    as (added' & Heq & Hgathered).
  simpl in Heq. subst added'.
  simpl. exists zones, items, w1. split; [done|]. split; [done|].
  split; [symmetry; by eapply Forall2_length|]. split; [done|].
  eapply Forall2_impl; [exact Hall|].
  intros zone object (Hzone & r & ->). split; [done|]. split; [by exists r|].
  intros fields name -> Hname.
  rewrite lookup_insert_ne by done. apply spread_object.
Qed.

Lemma getZonesAndRecords_shape_witness :
  exists data w', getZonesAndRecords env_account w0 = (Fulfilled data, w') /\
  exists zones items w1,
    getZones env_account w0 = (Fulfilled zones, w1) /\
    (zones = Some (JArr items) \/
     exists s, zones = Some (JStr s) /\ items = chars s) /\
    length data = length items /\
    gathered env_account items data w1 w' /\
    Forall2 (fun zone object =>
               zone <> JNull /\
               (exists r, object = <["records" := r]> (spread zone)) /\
               forall fields name, zone = JObj fields -> name <> "records" ->
                 object !! name = Some <$> get_field name fields)
            items data.
Proof.
  exists (<["records" := Some one_record]>
            (spread (JObj [("id", JStr "z1"); ("name", JStr "a.example")]))
          :: <["records" := Some one_record]>
               (spread (JObj [("id", JStr "z2"); ("name", JStr "b.example")]))
          :: []),
         (getZonesAndRecords env_account w0).2.
  assert (getZonesAndRecords env_account w0
          = (Fulfilled
               [<["records" := Some one_record]>
                  (spread (JObj [("id", JStr "z1"); ("name", JStr "a.example")]));
                <["records" := Some one_record]>
                  (spread (JObj [("id", JStr "z2"); ("name", JStr "b.example")]))],
             (getZonesAndRecords env_account w0).2)) as Hrun.
  { vm_compute. reflexivity. }
  split; [exact Hrun|].
  exact (getZonesAndRecords_shape env_account _ w0 _ Hrun).
Defined.

(** X15. [getZonesAndRecords] calls [fetch] ten times at most for the
    listing and ten times at most for each element the listing yields. *)
Theorem getZonesAndRecords_calls (env : Env) (w : World) :
  let run := getZonesAndRecords env w in
  let zones := match (getZones env w).1 with
               | Fulfilled (Some (JArr items)) => items
               | Fulfilled (Some (JStr s)) => chars s
               | _ => []
               end in
  (fetches w <= fetches run.2 <= fetches w + 10 * (1 + length zones))%nat.
Proof.
  intros run zones. unfold run, zones. rewrite getZonesAndRecords_unfold.
  pose proof (request_calls_bound env "GET" "zones" None None None None w)
    as Hlisting.
  rewrite <- getZones_request in Hlisting. simpl in Hlisting.
  destruct (getZones env w) as [[listing|e] w1]; simpl in *; [|lia].
  unfold async. run.
  assert (forall items,
            let loop := collect_records env items [] w1 in
            (fetches w
             <= fetches (match loop.1 with
                         | Returned a => (Fulfilled a, loop.2)
                         | Thrown e => (Rejected e, loop.2)
                         end).2
             <= fetches w + 10 * (1 + length items))%nat) as Hloop.
  { intros items loop.
    destruct (collect_records_frame env items [] w1) as [Hf _].
    fold loop in Hf. destruct loop as [[a|e] w2]; simpl in *; lia. }
  destruct listing as [[| | |s|items|]|]; simpl; try lia.
  - specialize (Hloop (chars s)).
    by destruct (collect_records env (chars s) [] w1) as [[a|e] w2].
  - specialize (Hloop items).
    by destruct (collect_records env items [] w1) as [[a|e] w2].
Qed.

(** The records of every zone the loop has passed are in the cache. *)
Lemma collect_records_cached (env : Env) (zones : list JSON)
    (data out : list (gmap string JsValue)) (w w' : World) :
  collect_records env zones data w = (Returned out, w') ->
  forall zone, zone ∈ zones -> is_Some (cache w' !! zone_path zone).
Proof.
  revert data w. induction zones as [|z zones IH]; intros data w Hrun zone Hin.
  { by apply elem_of_nil in Hin. }
  destruct (null_or_not z) as [->|Hz]; [done|].
  rewrite collect_records_step in Hrun by done.
  destruct (request env "GET" (zone_path z) None None None None w)
    as [[r|e] w1] eqn:Hreq; [|done].
  apply elem_of_cons in Hin as [->|Hin]; [|by eapply IH].
  destruct (fresh_entry_cached env "GET" (zone_path z) None None None None
              r w w1) as (e1 & He1 & _); [simpl; lia|done|].
  destruct (collect_records_frame env zones
              (data ++ [<["records" := r]> (spread z)]) w1) as (_ & Hkept & _).
  rewrite Hrun in Hkept. apply Hkept. by rewrite He1.
Qed.



(** A cold run of the loop over zones of distinct paths returns, for each
    zone, the records it leaves in the cache. *)
Lemma collect_records_cold (env : Env) (zones : list JSON)
    (data out : list (gmap string JsValue)) (w w' : World) :
  collect_records env zones data w = (Returned out, w') ->
  NoDup (zone_path <$> zones) ->
  out = data ++ (served (cache w') <$> zones).
Proof.
  revert data w. induction zones as [|z zones IH]; intros data w Hrun Hdup.
  { injection Hrun as <- <-. by rewrite app_nil_r. }
  destruct (null_or_not z) as [->|Hz]; [done|].
  rewrite collect_records_step in Hrun by done.
  destruct (request env "GET" (zone_path z) None None None None w)
    as [[r|e] w1] eqn:Hreq; [|done].
  rewrite fmap_cons in Hdup. apply NoDup_cons in Hdup as [Hfresh Hdup].
  rewrite (IH _ _ Hrun Hdup), <- app_assoc. f_equal. simpl. f_equal.
  destruct (fresh_entry_cached env "GET" (zone_path z) None None None None
              r w w1) as (e1 & He1 & Hr); [simpl; lia|done|].
  destruct (collect_records_frame env zones
              (data ++ [<["records" := r]> (spread z)]) w1) as (_ & _ & Hothers).
  rewrite Hrun in Hothers. simpl in Hothers.
  unfold served. by rewrite (Hothers _ Hfresh), He1, <- Hr.
Qed.

(** A warm run of the loop, every zone with records in the cache that are
    not expired: it reads them all from the cache and changes nothing. *)
Lemma collect_records_warm (env : Env) (zones : list JSON)
    (data : list (gmap string JsValue)) (w : World) :
  (forall zone, zone ∈ zones ->
     zone <> JNull /\
     exists e, cache w !! zone_path zone = Some e /\ ~ expired e (now w) 300) ->
  collect_records env zones data w
  = (Returned (data ++ (served (cache w) <$> zones)), w).
Proof.
  revert data. induction zones as [|z zones IH]; intros data Hwarm.
  { simpl. by rewrite app_nil_r. }
  destruct (Hwarm z) as (Hz & e & He & Hfresh); [by left|].
  rewrite collect_records_step by done.
  rewrite (request_hit env "GET" (zone_path z) None None None None e w)
    by done.
  rewrite IH, <- app_assoc.
  - simpl. unfold served at 2. by rewrite He.
  - intros zone Hin. apply Hwarm. by right.
Qed.

(** A loop that returns has met no [null]. *)
Lemma collect_records_no_null (env : Env) (zones : list JSON)
    (data out : list (gmap string JsValue)) (w w' : World) :
  collect_records env zones data w = (Returned out, w') ->
  forall zone, zone ∈ zones -> zone <> JNull.
Proof.
  revert data w. induction zones as [|z zones IH]; intros data w Hrun zone Hin.
  { by apply elem_of_nil in Hin. }
  destruct (null_or_not z) as [->|Hz]; [done|].
  rewrite collect_records_step in Hrun by done.
  destruct (request env "GET" (zone_path z) None None None None w)
    as [[r|e] w1]; [|done].
  apply elem_of_cons in Hin as [->|Hin]; [done|by eapply IH].
Qed.

(** X17. After [getZonesAndRecords] has resolved for zones whose record
    paths differ from one another, a second call made while no entry of
    the cache is expired resolves with the same data and calls [fetch]
    never: the world is as the first call left it. *)
Theorem getZonesAndRecords_again (env : Env) (items : list JSON)
    (data : list (gmap string JsValue)) (w wz w1 : World) (t : Z) :
  getZones env w = (Fulfilled (Some (JArr items)), wz) ->
  NoDup (zone_path <$> items) ->
  getZonesAndRecords env w = (Fulfilled data, w1) ->
  (forall path e, cache w1 !! path = Some e -> ~ expired e t 300) ->
  getZonesAndRecords env (at_time t w1) = (Fulfilled data, at_time t w1).
Proof.
  intros Hlisting Hdup Hrun Hfresh.
  rewrite getZonesAndRecords_unfold, Hlisting in Hrun.
  unfold async, mbind, M_bind, iterate, mret, M_ret in Hrun.
  destruct (collect_records env items [] wz) as [[out|e] w'] eqn:Hloop; [|done].
  injection Hrun as -> ->.
  pose proof (collect_records_cold env items [] data wz w1 Hloop Hdup) as Hdata.
  destruct (collect_records_frame env items [] wz) as (_ & _ & Hothers).
  rewrite Hloop in Hothers. simpl in Hothers.
  rewrite getZones_request in Hlisting.
  destruct (fresh_entry_cached env "GET" "zones" None None None None
              (Some (JArr items)) w wz) as (e0 & He0 & Hzones);
    [simpl; lia|done|].
  assert (cache w1 !! "zones" = Some e0) as Hentry.
  { rewrite Hothers; [done|]. intros Hin.
    apply list_elem_of_fmap in Hin as (z & Hz & _).
    symmetry in Hz. by apply records_path_not_zones in Hz. }
  rewrite getZonesAndRecords_unfold, getZones_request.
  rewrite (request_hit env "GET" "zones" None None None None e0 (at_time t w1))
    by (simpl; eauto).
  rewrite Hzones. unfold async. run. simpl.
  rewrite collect_records_warm; [by rewrite Hdata|].
  intros zone Hin. split.
  - by apply (collect_records_no_null env items [] data wz w1 Hloop).
  - destruct (collect_records_cached env items [] data wz w1 Hloop zone Hin)
      as [e He].
    exists e. split; [done|]. by apply (Hfresh (zone_path zone)).
Qed.

Lemma getZonesAndRecords_again_witness :
  exists data w1,
    getZonesAndRecords env_account w0 = (Fulfilled data, w1) /\
    length data = 2%nat /\ fetches w1 = 3%nat /\
    getZonesAndRecords env_account (at_time 100000 w1)
    = (Fulfilled data, at_time 100000 w1).
Proof.
  set (z1 := JObj [("id", JStr "z1"); ("name", JStr "a.example")]).
  set (z2 := JObj [("id", JStr "z2"); ("name", JStr "b.example")]).
  set (data := [<["records" := Some one_record]> (spread z1);
                <["records" := Some one_record]> (spread z2)]).
  set (w1 := (getZonesAndRecords env_account w0).2).
  exists data, w1.
  assert (getZonesAndRecords env_account w0 = (Fulfilled data, w1)) as Hrun.
  { vm_compute. reflexivity. }
  split; [exact Hrun|]. split; [reflexivity|]. split; [vm_compute; reflexivity|].
  apply (getZonesAndRecords_again env_account [z1; z2] data w0
           (getZones env_account w0).2 w1 100000).
  - vm_compute. reflexivity.
  - apply (bool_decide_unpack _). vm_compute. reflexivity.
  - exact Hrun.
  - assert (map_Forall (fun _ e => ~ time e < 100000 - 1000 * 300) (cache w1))
      as Hall.
    { apply (bool_decide_unpack _). vm_compute. reflexivity. }
    intros path e He. exact (Hall path e He).
Defined.

(** ** The cache a process can come to *)

(** The entries a run of the loop leaves are those it found and those of
    its zones. *)
Lemma collect_records_keys (env : Env) (zones : list JSON)
    (data : list (gmap string JsValue)) (w : World) (path : string) :
  is_Some (cache (collect_records env zones data w).2 !! path) ->
  is_Some (cache w !! path) \/ exists z, path = records_path z.
Proof.
  destruct (collect_records_frame env zones data w) as (_ & _ & Hothers).
  destruct (decide (path ∈ zone_path <$> zones)) as [Hin|Hout].
  - intros _. right. apply list_elem_of_fmap in Hin as (zone & -> & _).
    by eexists.
  - rewrite (Hothers path Hout). by left.
Qed.

Lemma request_keys (env : Env) (method endpoint : string)
    (headers : option (gmap string string)) (body : option JSON)
    (token : option string) (ttl : option Z) (w : World) (path : string) :
  is_Some (cache (request env method endpoint headers body token ttl w).2
           !! path) ->
  path = endpoint \/ is_Some (cache w !! path).
Proof.
  destruct (request_cache_others env method endpoint headers body token ttl w)
    as (_ & _ & Hkeys).
  apply Hkeys.
Qed.

(** Through the exported functions the cache comes to hold the listing and
    the records of zones, and nothing else. *)
Lemma reachable_keys (env : Env) (w : World) :
  reachable env w ->
  forall path, is_Some (cache w !! path) ->
               path = "zones" \/ exists z, path = records_path z.
Proof.
  induction 1 as [t|w t _ IH|w token _ IH|w _ IH|w z _ IH|w _ IH];
    intros path Hpath.
  - simpl in Hpath. rewrite lookup_empty in Hpath. by destruct Hpath.
  - by apply IH.
  - apply IH. destruct (verifyToken_frame env token w) as [Hc _].
    by rewrite <- Hc.
  - rewrite getZones_request in Hpath.
    apply request_keys in Hpath as [->|Hpath]; [by left|by apply IH].
  - rewrite getRecords_request in Hpath.
    apply request_keys in Hpath as [->|Hpath]; [right; by exists z|by apply IH].
  - rewrite getZonesAndRecords_unfold, getZones_request in Hpath.
    assert (forall path w1,
              w1 = (request env "GET" "zones" None None None None w).2 ->
              is_Some (cache w1 !! path) ->
              path = "zones" \/ exists z, path = records_path z) as Hlisting.
    { intros path' w1 -> Hp.
      apply request_keys in Hp as [->|Hp]; [by left|by apply IH]. }
    destruct (request env "GET" "zones" None None None None w)
      as [[zones|e] w1]; simpl in *; [|by apply (Hlisting path w1)].
    unfold async, iterate, mbind, M_bind, mret, M_ret, throw in Hpath.
    assert (forall items,
              is_Some (cache (collect_records env items [] w1).2 !! path) ->
              path = "zones" \/ exists z, path = records_path z) as Hloop.
    { intros items Hp. apply collect_records_keys in Hp as [Hp|Hp]; [|by right].
      by apply (Hlisting path w1). }
    destruct zones as [[| | |s|items|]|]; simpl in Hpath;
      try by apply (Hlisting path w1).
    + apply (Hloop (chars s)).
      by destruct (collect_records env (chars s) [] w1) as [[a|e] w2].
    + apply (Hloop items).
      by destruct (collect_records env items [] w1) as [[a|e] w2].
Qed.

(** X18. Whatever the exported functions have been called with, the cache
    holds entries under ["zones"] and under the record paths of zones only;
    the path of the verification is never among them, so that every
    [verifyToken] goes to the network. *)
Theorem verifyToken_never_cached (env : Env) (w : World) :
  reachable env w ->
  (forall path, is_Some (cache w !! path) ->
                path = "zones" \/ exists z, path = records_path z) /\
  cache w !! "user/tokens/verify" = None /\
  (forall token, (fetches w < fetches (verifyToken env token w).2)%nat).
Proof.
  intros Hreach.
  pose proof (reachable_keys env w Hreach) as Hkeys.
  assert (cache w !! "user/tokens/verify" = None) as Hnone.
  { destruct (cache w !! "user/tokens/verify") as [e|] eqn:He; [|done].
    destruct (Hkeys "user/tokens/verify") as [Heq|[z Heq]]; [by rewrite He|..].
    - discriminate.
    - symmetry in Heq. by apply records_path_not_verify in Heq. }
  split; [done|]. split; [done|]. intros token.
  pose proof (request_miss_fetches env "GET" "user/tokens/verify" None None
                (Some token) (Some 0) w) as Hcalls.
  unfold verifyToken. run.
  destruct (request env "GET" "user/tokens/verify" None None (Some token)
              (Some 0) w) as [p w']; simpl in *.
  apply Hcalls. unfold misses. by rewrite Hnone.
Qed.

Lemma verifyToken_never_cached_witness :
  let w := (getZonesAndRecords env_account (at_time 5 (getZones env_account w0).2)).2 in
  cache w !! "user/tokens/verify" = None /\
  (fetches w < fetches (verifyToken env_account "secret" w).2)%nat.
Proof.
  intros w.
  destruct (verifyToken_never_cached env_account w) as (_ & Hnone & Hcalls).
  - apply reach_getZonesAndRecords, reach_wait, reach_getZones, reach_start.
  - split; [exact Hnone|apply Hcalls].
Defined.
